(** * task_timer: the Task, TaskList and Agenda classes

    A shallow embedding of [src/TaskList.js], [src/Agenda.js] and the
    [Task] class, with the properties of the timeline and of the task
    tracker stated over it.

    Conventions of the embedding:
    - a JavaScript Number that holds a time value or a difference of time
      values is an integer or NaN ([Number]);
    - [Date] objects are mutable and shared by reference, so they live in a
      heap ([DateHeap]) and a [Task] holds references into it;
    - a [Task] held by a [TaskList] is only ever reached through [getCopy],
      so tasks are stored by value;
    - an object used as a dictionary is the list of its own properties in
      enumeration order ([Obj]);
    - a call that can throw returns an [Outcome]. *)

From Stdlib Require Import ZArith String Ascii Bool Arith Lia.
From Stdlib Require Import List Permutation Sorting.Sorted.
Import ListNotations.

Local Open Scope string_scope.
Local Open Scope Z_scope.
Local Open Scope list_scope.

(** ** Numbers *)

(** The Numbers that the timeline works with: time values of Dates and
    their differences.  All of them are integers or NaN. *)
Inductive Number : Type :=
| Int (z : Z)
| NaN.

Definition Number_eqb (a b : Number) : bool :=
  match a, b with
  | Int x, Int y => Z.eqb x y
  | NaN, NaN => true
  | _, _ => false
  end.

(** Nearest IEEE-754 double of an integer (53 bits of mantissa, ties to
    even); the identity up to 2^53. *)
Definition to_double (z : Z) : Z :=
  let a := Z.abs z in
  let e := Z.log2 a - 52 in
  if e <=? 0 then z
  else
    let q := Z.shiftr a e in
    let r := Z.land a (Z.ones e) in
    let half := Z.shiftl 1 (e - 1) in
    let q' := if r <? half then q
              else if half <? r then q + 1
              else if Z.even q then q else q + 1 in
    Z.sgn z * Z.shiftl q' e.

(** [a - b] on Numbers. *)
Definition Number_sub (a b : Number) : Number :=
  match a, b with
  | Int x, Int y => Int (to_double (x - y))
  | _, _ => NaN
  end.

(** [a + b] on Numbers. *)
Definition Number_add (a b : Number) : Number :=
  match a, b with
  | Int x, Int y => Int (to_double (x + y))
  | _, _ => NaN
  end.

(** [Math.max(a, b)]: NaN as soon as one argument is NaN. *)
Definition Math_max (a b : Number) : Number :=
  match a, b with
  | Int x, Int y => Int (Z.max x y)
  | _, _ => NaN
  end.

(** [Math.min(a, b)]. *)
Definition Math_min2 (a b : Number) : Number :=
  match a, b with
  | Int x, Int y => Int (Z.min x y)
  | _, _ => NaN
  end.

(** [Math.min(k, ...ks)] on a non-empty argument list. *)
Definition Math_min (k : Number) (ks : list Number) : Number :=
  fold_left Math_min2 ks k.

(** ** Dates *)

Definition DateRef := nat.

(** The heap of Date objects: cell [r] is the time value of the Date
    behind reference [r]; NaN is an Invalid Date. *)
Definition DateHeap := list Number.

Definition maxTimeValue : Z := 8640000000000000.

(** TimeClip of ECMA-262: a time value out of range is NaN. *)
Definition TimeClip (v : Number) : Number :=
  match v with
  | Int z => if Z.abs z <=? maxTimeValue then Int z else NaN
  | NaN => NaN
  end.

(** [date.getTime()], also the value a Date takes in [d1 - d2]. *)
Definition getTime (h : DateHeap) (r : DateRef) : Number := nth r h NaN.

(** [new Date(v)] for a Number [v]: a fresh object. *)
Definition new_Date (h : DateHeap) (v : Number) : DateHeap * DateRef :=
  (h ++ [TimeClip v], length h).

Fixpoint heap_store (h : DateHeap) (r : DateRef) (v : Number) : DateHeap :=
  match h, r with
  | [], _ => []
  | _ :: h', O => v :: h'
  | x :: h', S r' => x :: heap_store h' r' v
  end.

(** [date.setTime(v)]: the object is changed in place. *)
Definition setTime (h : DateHeap) (r : DateRef) (v : Number) : DateHeap :=
  heap_store h r (TimeClip v).

(** ** Values handed to the library *)

Inductive JSNumber : Type :=
| NumInteger (z : Z)   (* a finite Number with an integer value *)
| NumOther.            (* a fraction, NaN, Infinity or -Infinity *)

Definition FunRef := nat.

Inductive JSValue : Type :=
| VUndefined
| VNull
| VBoolean (b : bool)
| VNumber (n : JSNumber)
| VString (s : string)
| VDate (r : DateRef)
| VFunction (f : FunRef)
| VObject.             (* any other object *)

(** [v instanceof Date] *)
Definition instanceof_Date (v : JSValue) : bool :=
  match v with VDate _ => true | _ => false end.

(** [v instanceof Function] *)
Definition instanceof_Function (v : JSValue) : bool :=
  match v with VFunction _ => true | _ => false end.

(** [Number.isInteger(v)] *)
Definition Number_isInteger (v : JSValue) : bool :=
  match v with VNumber (NumInteger _) => true | _ => false end.

(** ** Outcomes *)

Inductive JSError : Type := TypeError | RangeError.

Inductive Outcome (A : Type) : Type :=
| Ok (a : A)
| Throw (e : JSError)   (* the exception reaches the caller *)
| Spin.                 (* the id loop used up the random buffers it was given *)

Arguments Ok {A} a.
Arguments Throw {A} e.
Arguments Spin {A}.

Definition bind {A B : Type} (m : Outcome A) (f : A -> Outcome B) : Outcome B :=
  match m with
  | Ok a => f a
  | Throw e => Throw e
  | Spin => Spin
  end.

Notation "x <- m ;; k" := (bind m (fun x => k))
  (at level 61, m at next level, right associativity).
Notation "' p <- m ;; k" := (bind m (fun x => match x with p => k end))
  (at level 61, p pattern, m at next level, right associativity).

(** ** Task *)

(** The private fields of [Task] (the class with [#name = null]). *)
Record Task : Type := mkTask {
  t_id : string;
  t_name : option string;          (* None is null *)
  t_description : option string;   (* None is null *)
  t_creationTime : DateRef;
  t_executionTime : DateRef;
  t_payloadFunction : FunRef;
  t_payloadArguments : list JSValue
}.

(** A call of one of the two timer functions of the host. *)
Inductive TimerCall : Type :=
| SetTimeout (timer : nat) (delay : Number)
| ClearTimeout (timer : nat).

(** The surroundings of the library: the Date objects, the clock and the
    calls made to the timer functions so far. *)
Record Host : Type := mkHost {
  dates : DateHeap;
  now : Z;                (* what [new Date()] reads off the clock *)
  timerCalls : list TimerCall
}.

(** [Task.createTaskWithExecutionTime]: the two type checks, then a task
    that is created now and is due at the Date it was given, which it keeps
    by reference. *)
Definition createTaskWithExecutionTime
    (w : Host) (executionTime executionFunction : JSValue)
    (executionArguments : list JSValue) : Outcome (Host * Task) :=
  match executionTime with
  | VDate r =>
    match executionFunction with
    | VFunction f =>
      let (h1, created) := new_Date (dates w) (Int (now w)) in
      Ok (mkHost h1 (now w) (timerCalls w),
          mkTask "" None None created r f executionArguments)
    | _ => Throw TypeError
    end
  | _ => Throw TypeError
  end.

(** [Task.createTaskWithExecutionDelay]: the two type checks, then a task
    that is created now and is due at a new Date, the creation time plus
    the delay. *)
Definition createTaskWithExecutionDelay
    (w : Host) (executionDelay executionFunction : JSValue)
    (executionArguments : list JSValue) : Outcome (Host * Task) :=
  match executionDelay with
  | VNumber (NumInteger d) =>
    match executionFunction with
    | VFunction f =>
      let (h1, created) := new_Date (dates w) (Int (now w)) in
      let (h2, due) := new_Date h1 (Number_add (getTime h1 created) (Int d)) in
      Ok (mkHost h2 (now w) (timerCalls w),
          mkTask "" None None created due f executionArguments)
    | _ => Throw TypeError
    end
  | _ => Throw TypeError
  end.

(** [getCopy]: a new Task with the same field values.  The two Date
    references are copied as references; the argument array is a new array
    with the same elements. *)
Definition getCopy (t : Task) : Task :=
  {| t_id := t_id t;
     t_name := t_name t;
     t_description := t_description t;
     t_creationTime := t_creationTime t;
     t_executionTime := t_executionTime t;
     t_payloadFunction := t_payloadFunction t;
     t_payloadArguments := t_payloadArguments t |}.

Definition getId (t : Task) : string := t_id t.

Definition setId (t : Task) (newId : string) : Task :=
  {| t_id := newId;
     t_name := t_name t;
     t_description := t_description t;
     t_creationTime := t_creationTime t;
     t_executionTime := t_executionTime t;
     t_payloadFunction := t_payloadFunction t;
     t_payloadArguments := t_payloadArguments t |}.

Definition getName (t : Task) : option string := t_name t.

(** [setName(newName)] for null or a string. *)
Definition setName (t : Task) (newName : option string) : Task :=
  {| t_id := t_id t;
     t_name := newName;
     t_description := t_description t;
     t_creationTime := t_creationTime t;
     t_executionTime := t_executionTime t;
     t_payloadFunction := t_payloadFunction t;
     t_payloadArguments := t_payloadArguments t |}.

Definition getCreationTime (t : Task) : DateRef := t_creationTime t.

Definition getExectutionTime (t : Task) : DateRef := t_executionTime t.

(** [Math.max(this.#executionTime - new Date(), 0)] *)
Definition getTimeTillExecution (w : Host) (t : Task) : Number :=
  Math_max (Number_sub (getTime (dates w) (t_executionTime t)) (Int (now w)))
           (Int 0).

(** ** Objects used as dictionaries *)

(** The own properties of an object, in the order [Object.keys],
    [Object.values] and [Object.entries] list them: array-index keys first,
    by ascending value, then the other keys in insertion order. *)
Definition Obj (V : Type) : Type := list (string * V).

Definition digit_of (c : ascii) : option Z :=
  let n := Z.of_nat (nat_of_ascii c) in
  if (48 <=? n) && (n <=? 57) then Some (n - 48) else None.

Fixpoint parse_digits (s : string) (acc : Z) : option Z :=
  match s with
  | EmptyString => Some acc
  | String c s' =>
    match digit_of c with
    | Some d => parse_digits s' (10 * acc + d)
    | None => None
    end
  end.

(** The array index that a property key denotes, if it is the canonical
    decimal form of an integer below 2^32 - 1. *)
Definition array_index (k : string) : option Z :=
  match k with
  | EmptyString => None
  | String c rest =>
    if Ascii.eqb c "0"%char && negb (String.eqb rest "") then None
    else match parse_digits k 0 with
         | Some n => if n <? 2 ^ 32 - 1 then Some n else None
         | None => None
         end
  end.

Definition obj_keys {V} (o : Obj V) : list string := map fst o.

Definition obj_values {V} (o : Obj V) : list V := map snd o.

Fixpoint obj_get {V} (o : Obj V) (k : string) : option V :=
  match o with
  | [] => None
  | (k', v) :: o' => if String.eqb k' k then Some v else obj_get o' k
  end.

Fixpoint obj_replace {V} (o : Obj V) (k : string) (v : V) : Obj V :=
  match o with
  | [] => []
  | (k', v') :: o' =>
    if String.eqb k' k then (k', v) :: o' else (k', v') :: obj_replace o' k v
  end.

Fixpoint obj_insert_index {V} (o : Obj V) (n : Z) (k : string) (v : V) : Obj V :=
  match o with
  | [] => [(k, v)]
  | (k', v') :: o' =>
    match array_index k' with
    | Some m => if m <? n then (k', v') :: obj_insert_index o' n k v
                else (k, v) :: o
    | None => (k, v) :: o
    end
  end.

(** [o[k] = v] *)
Definition obj_set {V} (o : Obj V) (k : string) (v : V) : Obj V :=
  match obj_get o k with
  | Some _ => obj_replace o k v
  | None =>
    match array_index k with
    | Some n => obj_insert_index o n k v
    | None => o ++ [(k, v)]
    end
  end.

(** [delete o[k]] *)
Fixpoint obj_delete {V} (o : Obj V) (k : string) : Obj V :=
  match o with
  | [] => []
  | (k', v) :: o' =>
    if String.eqb k' k then o' else (k', v) :: obj_delete o' k
  end.

(** The names every object inherits from [Object.prototype]; each of them
    reads as a value that is neither null nor undefined. *)
Definition Object_prototype_names : list string :=
  ["constructor"; "__defineGetter__"; "__defineSetter__"; "hasOwnProperty";
   "__lookupGetter__"; "__lookupSetter__"; "isPrototypeOf";
   "propertyIsEnumerable"; "toString"; "valueOf"; "__proto__";
   "toLocaleString"].

(** What the expression [o[k]] evaluates to. *)
Inductive Lookup (V : Type) : Type :=
| Own (v : V)
| Inherited
| Undefined.

Arguments Own {V} v.
Arguments Inherited {V}.
Arguments Undefined {V}.

Definition obj_read {V} (o : Obj V) (k : string) : Lookup V :=
  match obj_get o k with
  | Some v => Own v
  | None => if existsb (String.eqb k) Object_prototype_names then Inherited
            else Undefined
  end.

(** ** Strings *)

(** [Array.prototype.toString] on an array of strings, which is what an
    array becomes when it is used as a property key. *)
Definition Array_toString (a : list string) : string := String.concat "," a.

(** [s.includes(sub)] *)
Fixpoint includes (s sub : string) : bool :=
  if String.prefix sub s then true
  else match s with
       | EmptyString => false
       | String _ s' => includes s' sub
       end.

Definition lower_ascii (c : ascii) : ascii :=
  let n := nat_of_ascii c in
  if (65 <=? n)%nat && (n <=? 90)%nat then ascii_of_nat (n + 32) else c.

(** [s.toLowerCase()], on the ASCII letters. *)
Fixpoint toLowerCase (s : string) : string :=
  match s with
  | EmptyString => EmptyString
  | String c s' => String (lower_ascii c) (toLowerCase s')
  end.

(** ** Random ids *)

(** [randomBytes(5)] *)
Definition Bytes5 : Type := Byte.byte * Byte.byte * Byte.byte * Byte.byte * Byte.byte.

Definition hex_digit (n : N) : ascii :=
  nth (N.to_nat n)
      ["0"; "1"; "2"; "3"; "4"; "5"; "6"; "7"; "8"; "9";
       "a"; "b"; "c"; "d"; "e"; "f"]%char "0"%char.

Definition hex_byte (b : Byte.byte) (rest : string) : string :=
  let n := Byte.to_N b in
  String (hex_digit (N.div n 16)) (String (hex_digit (N.modulo n 16)) rest).

(** [buffer.toString("hex")] *)
Definition toString_hex (b : Bytes5) : string :=
  let '(b0, b1, b2, b3, b4) := b in
  hex_byte b0 (hex_byte b1 (hex_byte b2 (hex_byte b3 (hex_byte b4 "")))).

(** ** TaskList *)

Record TaskList : Type := mkTaskList {
  tasks : Obj Task;
  timeline : list (list string)
}.

(** [#tasks = {}], [#timeline = []] *)
Definition emptyTaskList : TaskList := mkTaskList [] [].

(** The repository holds [TaskList.js] twice.  The two copies differ in
    [organizeTasks], where one takes [Math.max] of the delay and 0, and in
    the three find methods, where the same copy no longer calls
    [organizeTasks] on its result. *)
Inductive Revision : Type :=
| Unclamped    (* src/TaskList.js *)
| Clamped.     (* the copy with the documented methods *)

(** [#generateUniqueID]: draw buffers until the hex string is no key of
    [#tasks]. *)
Fixpoint generateUniqueID (keys : list string) (rnd : list Bytes5)
  : Outcome (string * list Bytes5) :=
  match rnd with
  | [] => Spin
  | b :: rnd' =>
    let output := toString_hex b in
    if existsb (String.eqb output) keys then generateUniqueID keys rnd'
    else Ok (output, rnd')
  end.

Definition taskCount (tl : TaskList) : nat := length (obj_keys (tasks tl)).

Definition timelineLength (tl : TaskList) : nat := length (timeline tl).

(** The [delay] of the first loop of [organizeTasks]. *)
Definition taskDelay (rev : Revision) (h : DateHeap) (task : Task) : Number :=
  let d := Number_sub (getTime h (getExectutionTime task))
                      (getTime h (getCreationTime task)) in
  match rev with
  | Unclamped => d
  | Clamped => Math_max d (Int 0)
  end.

(** The [delays] object.  Its keys are the decimal strings of Numbers (or
    ["NaN"]), which [Number(key)] maps back to the same Number, so the keys
    are kept as Numbers.  The loop below only takes the minimum of the keys
    and looks single keys up, so their enumeration order plays no role. *)
Definition Delays : Type := list (Number * list string).

Fixpoint delays_get (delays : Delays) (k : Number) : option (list string) :=
  match delays with
  | [] => None
  | (k', ids) :: rest => if Number_eqb k' k then Some ids else delays_get rest k
  end.

(** One round of the first loop: [delays[delay] = [id]] or
    [delays[delay].push(id)]. *)
Fixpoint delays_add (delays : Delays) (delay : Number) (id : string) : Delays :=
  match delays with
  | [] => [(delay, [id])]
  | (k', ids) :: rest =>
    if Number_eqb k' delay then (k', ids ++ [id]) :: rest
    else (k', ids) :: delays_add rest delay id
  end.

Fixpoint delays_delete (delays : Delays) (k : Number) : Delays :=
  match delays with
  | [] => []
  | (k', ids) :: rest =>
    if Number_eqb k' k then rest else (k', ids) :: delays_delete rest k
  end.

Definition collectDelays (key : Task -> Number) (ts : list Task) : Delays :=
  fold_left (fun delays task => delays_add delays (key task) (getId task)) ts [].

(** The [while (cont)] loop of [organizeTasks]; [fuel] bounds the number of
    rounds. *)
Fixpoint drainDelays (fuel : nat) (delays : Delays) (newTimeline : list (list string))
  : option (list (list string)) :=
  match fuel with
  | O => None
  | S fuel' =>
    match map fst delays with
    | [] => Some newTimeline
    | k :: ks =>
      let smallestDelay := Math_min k ks in
      let newTimeline' :=
        match delays_get delays smallestDelay with
        | Some ids =>
          if (0 <? length ids)%nat then newTimeline ++ [ids] else newTimeline
        | None => newTimeline
        end in
      drainDelays fuel' (delays_delete delays smallestDelay) newTimeline'
    end
  end.

Definition organizeBy (key : Task -> Number) (tl : TaskList) : TaskList :=
  let delays := collectDelays key (obj_values (tasks tl)) in
  match drainDelays (S (length delays)) delays [] with
  | Some newTimeline => mkTaskList (tasks tl) newTimeline
  | None => tl      (* never taken, see [drainDelays_terminates] *)
  end.

Definition organizeTasks (rev : Revision) (h : DateHeap) (tl : TaskList) : TaskList :=
  organizeBy (taskDelay rev h) tl.

Definition getTimelineCopy (tl : TaskList) : list (list string) :=
  map (fun ids => ids) (timeline tl).

Definition getTasksCopy (tl : TaskList) : Obj Task :=
  fold_left (fun output kv => obj_set output (fst kv) (getCopy (snd kv)))
            (tasks tl) [].

Definition TaskList_getCopy (tl : TaskList) : TaskList :=
  mkTaskList (getTasksCopy tl) (getTimelineCopy tl).

(** [#addTask_prv] *)
Definition addTask_prv (ts : Obj Task) (rnd : list Bytes5) (newTask : Task)
  : Outcome (Obj Task * list Bytes5) :=
  let newEleTask := getCopy newTask in
  '(newId, rnd') <- generateUniqueID (obj_keys ts) rnd ;;
  Ok (obj_set ts newId (setId newEleTask newId), rnd').

(** An argument of [addTasks] or of the constructor. *)
Inductive TaskArg : Type :=
| ATask (t : Task)         (* [arg instanceof Task] *)
| AOther (v : JSValue).

Fixpoint addTasks_loop (ts : Obj Task) (rnd : list Bytes5) (newTasks : list TaskArg)
    (changed : bool) : Outcome (Obj Task * list Bytes5 * bool) :=
  match newTasks with
  | [] => Ok (ts, rnd, changed)
  | AOther _ :: rest => addTasks_loop ts rnd rest changed
  | ATask newTask :: rest =>
    '(ts', rnd') <- addTask_prv ts rnd newTask ;;
    addTasks_loop ts' rnd' rest true
  end.

(** [addTasks(...newTasks)]: the list afterwards, what is left of the
    random buffers, and the boolean it returns. *)
Definition addTasks (rev : Revision) (h : DateHeap) (tl : TaskList)
    (rnd : list Bytes5) (newTasks : list TaskArg)
  : Outcome (TaskList * list Bytes5 * bool) :=
  '(ts, rnd', changed) <- addTasks_loop (tasks tl) rnd newTasks false ;;
  if changed
  then Ok (organizeTasks rev h (mkTaskList ts (timeline tl)), rnd', true)
  else Ok (mkTaskList ts (timeline tl), rnd', false).

(** [new TaskList(...tasks)] *)
Definition newTaskList (rev : Revision) (h : DateHeap) (rnd : list Bytes5)
    (args : list TaskArg) : Outcome (TaskList * list Bytes5) :=
  '(ts, rnd', _) <- addTasks_loop [] rnd args false ;;
  let this := mkTaskList ts [] in
  if (0 <? taskCount this)%nat then Ok (organizeTasks rev h this, rnd')
  else Ok (this, rnd').

Fixpoint removeTasks_loop (ts : Obj Task) (taskIds : list string) (changed : bool)
  : Obj Task * bool :=
  match taskIds with
  | [] => (ts, changed)
  | taskId :: rest =>
    match obj_read ts taskId with
    | Undefined => removeTasks_loop ts rest changed
    | _ => removeTasks_loop (obj_delete ts taskId) rest true
    end
  end.

(** [removeTasks(...taskIds)], each argument already turned into the
    property key that [this.#tasks[taskId]] uses. *)
Definition removeTasks (rev : Revision) (h : DateHeap) (tl : TaskList)
    (taskIds : list string) : TaskList * bool :=
  let (ts, changed) := removeTasks_loop (tasks tl) taskIds false in
  if changed then (organizeTasks rev h (mkTaskList ts (timeline tl)), true)
  else (mkTaskList ts (timeline tl), false).

Definition getNextTaskIds (tl : TaskList) : list string :=
  match nth_error (timeline tl) 0 with
  | Some output => if (0 <? length output)%nat then output else []
  | None => []
  end.

(** The [for (const id of ids)] loop of [getTasks_timelineIndex]. *)
Fixpoint copyTasksOf (ts : Obj Task) (ids : list string) : Outcome (list Task) :=
  match ids with
  | [] => Ok []
  | id :: rest =>
    match obj_read ts id with
    | Own task =>
      elements <- copyTasksOf ts rest ;;
      Ok (getCopy task :: elements)
    | _ => Throw TypeError
    end
  end.

Definition getTasks_timelineIndex (tl : TaskList) (index : JSValue)
  : Outcome (list Task) :=
  match index with
  | VNumber (NumInteger i) =>
    if (i <? 0) || (Z.of_nat (timelineLength tl) <? i) then Throw RangeError
    else
      match nth_error (timeline tl) (Z.to_nat i) with
      | Some ids => copyTasksOf (tasks tl) ids
      | None => Ok []
      end
  | _ => Throw TypeError
  end.

Definition getNextTasks (tl : TaskList) : Outcome (list Task) :=
  getTasks_timelineIndex tl (VNumber (NumInteger 0)).

Fixpoint getTasks_id (tl : TaskList) (taskIds : list string) : Outcome (list Task) :=
  match taskIds with
  | [] => Ok []
  | taskId :: rest =>
    match obj_read (tasks tl) taskId with
    | Own element =>
      output <- getTasks_id tl rest ;;
      Ok (getCopy element :: output)
    | Inherited => Throw TypeError
    | Undefined => getTasks_id tl rest
    end
  end.

Fixpoint findTasksByName_loop (elements : list Task) (searchVal : string)
    (caseSensitive : bool) (foundTasks : Obj Task) : Outcome (Obj Task) :=
  match elements with
  | [] => Ok foundTasks
  | element :: rest =>
    match getName element with
    | None => Throw TypeError
    | Some name =>
      let searchTarget := if caseSensitive then name else toLowerCase name in
      findTasksByName_loop rest searchVal caseSensitive
        (if includes searchTarget searchVal
         then obj_set foundTasks (getId element) (getCopy element)
         else foundTasks)
    end
  end.

Definition findTasksByName (rev : Revision) (h : DateHeap) (tl : TaskList)
    (taskName : string) (caseSensitive : bool) : Outcome TaskList :=
  let searchVal := if caseSensitive then taskName else toLowerCase taskName in
  foundTasks <- findTasksByName_loop (obj_values (tasks tl)) searchVal
                                      caseSensitive [] ;;
  let output := mkTaskList foundTasks [] in
  match rev with
  | Unclamped => Ok (organizeTasks rev h output)
  | Clamped => Ok output
  end.

(** ** Agenda *)

(** [setTimeout(callback, delay)]: the call is recorded and a timer that
    was never handed out before is returned. *)
Definition setTimeout (w : Host) (delay : Number) : Host * nat :=
  let timer := length (timerCalls w) in
  (mkHost (dates w) (now w) (timerCalls w ++ [SetTimeout timer delay]), timer).

(** [clearTimeout(timer)] *)
Definition clearTimeout (w : Host) (timer : nat) : Host :=
  mkHost (dates w) (now w) (timerCalls w ++ [ClearTimeout timer]).

Record Agenda : Type := mkAgenda {
  taskList : TaskList;
  nextTasksIds : option (list string);     (* None is null *)
  activeTimerId : option nat;              (* None is null *)
  nextExecutionTime : option DateRef       (* None is null *)
}.

(** [new Agenda()] *)
Definition newAgenda : Agenda := mkAgenda emptyTaskList None None None.

(** [#getTrackedTasks] *)
Definition getTrackedTasks (a : Agenda) : Outcome (list Task) :=
  match nextTasksIds a with
  | Some ids =>
    if (0 <? length ids)%nat then getTasks_id (taskList a) ids else Ok []
  | None => Ok []
  end.

(** [#setTaskTracker] *)
Definition setTaskTracker (w : Host) (a : Agenda) : Outcome (Host * Agenda) :=
  let newNextTaskIds := getNextTaskIds (taskList a) in
  match newNextTaskIds with
  | first :: _ =>
    found <- getTasks_id (taskList a) [first] ;;
    match found with
    | sampleTask :: _ =>
      let delay := getTimeTillExecution w sampleTask in
      let (w', timer) := setTimeout w delay in
      Ok (w', mkAgenda (taskList a) (Some newNextTaskIds) (Some timer)
                       (Some (getExectutionTime sampleTask)))
    | [] => Throw TypeError
    end
  | [] => Ok (w, a)
  end.

(** [#clearTaskTracker] *)
Definition clearTaskTracker (w : Host) (a : Agenda) : Host * Agenda :=
  match activeTimerId a with
  | Some timer => (clearTimeout w timer, mkAgenda (taskList a) None None None)
  | None => (w, mkAgenda (taskList a) None None None)
  end.

(** The [changed] flag of [#checkTaskTracker]. *)
Definition trackerChanged (ids_mine ids_them : list string) : bool :=
  if Nat.eqb (length ids_mine) (length ids_them)
  then existsb (fun id_mine => negb (existsb (String.eqb id_mine) ids_them)) ids_mine
  else true.

(** [#checkTaskTracker] *)
Definition checkTaskTracker (w : Host) (a : Agenda) : Outcome (Host * Agenda) :=
  let ids_them := getNextTaskIds (taskList a) in
  let ids_mine := match nextTasksIds a with Some ids => ids | None => [] end in
  if trackerChanged ids_mine ids_them
  then let (w1, a1) := clearTaskTracker w a in setTaskTracker w1 a1
  else Ok (w, a).

(** [new Date(value)] where [value] is null or a Date: null counts as the
    Number 0, a Date gives its time value. *)
Definition new_Date_of (h : DateHeap) (value : option DateRef) : DateHeap * DateRef :=
  match value with
  | Some r => new_Date h (getTime h r)
  | None => new_Date h (Int 0)
  end.

Definition getNextExectutionTime (w : Host) (a : Agenda) : Host * JSValue :=
  let (h, r) := new_Date_of (dates w) (nextExecutionTime a) in
  (mkHost h (now w) (timerCalls w), VDate r).

Definition getTaskCount (a : Agenda) : nat := taskCount (taskList a).

Definition withTaskList (a : Agenda) (tl : TaskList) : Agenda :=
  mkAgenda tl (nextTasksIds a) (activeTimerId a) (nextExecutionTime a).

(** [Agenda.addTasks(...newTasks)] *)
Definition Agenda_addTasks (rev : Revision) (w : Host) (a : Agenda)
    (rnd : list Bytes5) (newTasks : list TaskArg)
  : Outcome (Host * Agenda * list Bytes5 * nat) :=
  '(tl, rnd', changed) <- addTasks rev (dates w) (taskList a) rnd newTasks ;;
  let a1 := withTaskList a tl in
  if changed
  then '(w2, a2) <- checkTaskTracker w a1 ;; Ok (w2, a2, rnd', getTaskCount a2)
  else Ok (w, a1, rnd', getTaskCount a1).

(** [Agenda.removeTask(...taskIds)].  The rest parameter is handed to
    [removeTasks] as one argument, the array itself, so the one property
    key that [removeTasks] sees is the array turned into a string. *)
Definition Agenda_removeTask (rev : Revision) (w : Host) (a : Agenda)
    (taskIds : list string) : Outcome (Host * Agenda * nat) :=
  let (tl, changed) :=
    removeTasks rev (dates w) (taskList a) [Array_toString taskIds] in
  let a1 := withTaskList a tl in
  if changed
  then '(w2, a2) <- checkTaskTracker w a1 ;; Ok (w2, a2, getTaskCount a2)
  else Ok (w, a1, getTaskCount a1).

(** [Agenda.getTaskList()] *)
Definition getTaskList (a : Agenda) : TaskList := TaskList_getCopy (taskList a).

(** * Vocabulary of the properties *)

(** ** The order of the groups *)

(** The order in which [organizeTasks] emits the groups: the NaN key comes
    before every integer, and the integers ascend. *)
Definition key_lt (a b : Number) : Prop :=
  match a, b with
  | Int x, Int y => x < y
  | NaN, Int _ => True
  | _, NaN => False
  end.

Definition key_le (a b : Number) : Prop := a = b \/ key_lt a b.

(** ** Invariants of a TaskList *)

(** The ids of the tasks of [ts] whose key is [k], in the order of [ts]. *)
Definition idsWithKey (key : Task -> Number) (ts : list Task) (k : Number)
  : list string :=
  map getId (filter (fun t => Number_eqb (key t) k) ts).

(** Every key of [#tasks] occurs once, and the task stored under a key
    carries that key as its id. *)
Definition storeOk (ts : Obj Task) : Prop :=
  NoDup (obj_keys ts) /\ Forall (fun kv => getId (snd kv) = fst kv) ts.

(** Id [id] is a member of the timeline group at position [i]. *)
Definition inGroup (tl : TaskList) (i : nat) (id : string) : Prop :=
  exists g, nth_error (timeline tl) i = Some g /\ In id g.

(** The timeline lists the keys of [#tasks], each once. *)
Definition timelineOk (tl : TaskList) : Prop :=
  storeOk (tasks tl) /\
  Permutation (concat (timeline tl)) (obj_keys (tasks tl)).

(** The TaskLists that the public methods can produce: a new list, with or
    without constructor arguments, and whatever [addTasks], [removeTasks]
    and [organizeTasks] make of one, under any state of the Dates and any
    supply of random buffers. *)
Inductive reachable (rev : Revision) : TaskList -> Prop :=
| reach_empty : reachable rev emptyTaskList
| reach_new h rnd args tl rnd' :
    newTaskList rev h rnd args = Ok (tl, rnd') -> reachable rev tl
| reach_add h tl rnd newTasks tl' rnd' changed :
    reachable rev tl ->
    addTasks rev h tl rnd newTasks = Ok (tl', rnd', changed) ->
    reachable rev tl'
| reach_remove h tl taskIds tl' changed :
    reachable rev tl ->
    removeTasks rev h tl taskIds = (tl', changed) ->
    reachable rev tl'
| reach_organize h tl :
    reachable rev tl -> reachable rev (organizeTasks rev h tl).

(** No group of the timeline is an empty array. *)
Definition groupsNonEmpty (tl : TaskList) : Prop :=
  Forall (fun g : list string => g <> []) (timeline tl).

(** [executionTime - creationTime], clamped to at least 0. *)
Definition clampedDelay (h : DateHeap) (t : Task) : Number :=
  Math_max (Number_sub (getTime h (getExectutionTime t))
                       (getTime h (getCreationTime t)))
           (Int 0).

(** The string holds a comma. *)
Fixpoint hasComma (s : string) : bool :=
  match s with
  | EmptyString => false
  | String c s' => Ascii.eqb c ","%char || hasComma s'
  end.

(** No key of the dictionary holds a comma. *)
Definition keysCommaFree {V} (o : Obj V) : Prop :=
  Forall (fun k => hasComma k = false) (obj_keys o).

(** ** The constructors *)

(** The constructor throws its TypeError. *)
Definition rejects {A} (o : Outcome A) : Prop := o = Throw TypeError.

(** [v] is a Number with a non-negative integer value. *)
Definition nonNegativeInteger (v : JSValue) : bool :=
  match v with
  | VNumber (NumInteger z) => 0 <=? z
  | _ => false
  end.

(** ** Worked data *)

(** Two Dates in the past of a clock that reads 1000. *)
Definition pastHost : Host := mkHost [Int 995; Int 997] 1000 [].

(** The tasks of the examples: [taskA] is due at the first Date, 5 ms
    before it is created, [taskB] at the second, 3 ms before it is
    created, and [taskC] 2000 ms after it is created. *)
Definition taskA : Task := mkTask "" None None 2%nat 0%nat 0%nat [].
Definition taskB : Task := mkTask "" None None 3%nat 1%nat 0%nat [].
Definition taskC : Task := mkTask "" None None 4%nat 5%nat 0%nat [].

(** The Dates once the three tasks exist. *)
Definition sampleDates : DateHeap :=
  [Int 995; Int 997; Int 1000; Int 1000; Int 1000; Int 3000].

Definition sampleHost : Host := mkHost sampleDates 1000 [].

(** Three random buffers; their hex strings are the ids below. *)
Definition sampleRandom : list Bytes5 :=
  [(Byte.x12, Byte.x34, Byte.x56, Byte.x78, Byte.x90);
   (Byte.xaa, Byte.xbb, Byte.xcc, Byte.xdd, Byte.xee);
   (Byte.x01, Byte.x02, Byte.x03, Byte.x04, Byte.x05)].

(** The three tasks as a TaskList stores them. *)
Definition storedA : Task := setId taskA "1234567890".
Definition storedB : Task := setId taskB "aabbccddee".
Definition storedC : Task := setId taskC "0102030405".

(** [taskA] and [taskB] added to a new list by [src/TaskList.js]. *)
Definition listAB : TaskList :=
  mkTaskList [("1234567890", storedA); ("aabbccddee", storedB)]
             [["1234567890"]; ["aabbccddee"]].

(** The Agenda after [addTasks(taskA, taskB)] on a new Agenda: both tasks
    are stored and the first group is tracked by timer 0. *)
Definition agendaAB : Agenda :=
  mkAgenda listAB (Some ["1234567890"]) (Some 0%nat) (Some 0%nat).

(** The host after that call: timer 0 was armed with delay 0. *)
Definition hostAB : Host := mkHost sampleDates 1000 [SetTimeout 0 (Int 0)].

(** * The rest of the Agenda *)

(** ** Payloads *)

(** What calling a payload function does.  A payload is user code: it may
    change any Date, it may throw, it may never return.  It is taken not to
    call the Agenda itself, and the timer it could arm for itself is not one
    of the Agenda's. *)
Definition Payloads : Type :=
  FunRef -> list JSValue -> DateHeap -> Outcome DateHeap.

(** [getPayloadArguments]: a new array with the stored arguments. *)
Definition getPayloadArguments (t : Task) : list JSValue := t_payloadArguments t.

(** [execute]: [this.#payloadFunction(...this.getPayloadArguments())] *)
Definition execute (run : Payloads) (w : Host) (t : Task) : Outcome Host :=
  h <- run (t_payloadFunction t) (getPayloadArguments t) (dates w) ;;
  Ok (mkHost h (now w) (timerCalls w)).

(** The loop of [#executeTrackedTasks]: the id is pushed, then the task is
    executed. *)
Fixpoint executeAll (run : Payloads) (w : Host) (nextTasks : list Task)
    (executedTasksIds : list string) : Outcome (Host * list string) :=
  match nextTasks with
  | [] => Ok (w, executedTasksIds)
  | task :: rest =>
    w' <- execute run w task ;;
    executeAll run w' rest (executedTasksIds ++ [getId task])
  end.

(** [#executeTrackedTasks], the callback of the timer. *)
Definition executeTrackedTasks (rev : Revision) (run : Payloads) (w : Host)
    (a : Agenda) : Outcome (Host * Agenda) :=
  nextTasks <- getTrackedTasks a ;;
  ' (w1, executedTasksIds) <- executeAll run w nextTasks [] ;;
  let (tl, _) := removeTasks rev (dates w1) (taskList a) executedTasksIds in
  let (w2, a2) := clearTaskTracker w1 (withTaskList a tl) in
  setTaskTracker w2 a2.

(** [executeTaskNow(taskId, removeAfterExecution)] *)
Definition executeTaskNow (rev : Revision) (run : Payloads) (w : Host)
    (a : Agenda) (taskId : string) (removeAfterExecution : bool)
  : Outcome (Host * Agenda * nat) :=
  found <- getTasks_id (taskList a) [taskId] ;;
  match found with
  | task :: _ =>
    w1 <- execute run w task ;;
    if removeAfterExecution then Agenda_removeTask rev w1 a [taskId]
    else Ok (w1, a, getTaskCount a)
  | [] => Ok (w, a, getTaskCount a)
  end.

(** ** Vocabulary for the rest *)

(** The Task instances among the arguments of [addTasks]. *)
Fixpoint taskArgs (args : list TaskArg) : list Task :=
  match args with
  | [] => []
  | ATask t :: rest => t :: taskArgs rest
  | AOther _ :: rest => taskArgs rest
  end.

(** The key is one of the given ids. *)
Definition isOneOf (taskIds : list string) (k : string) : bool :=
  existsb (String.eqb k) taskIds.

(** Does the task count as a match in [findTasksByName]: its name, in lower
    case unless the search is case sensitive, includes the search value. *)
Definition nameMatches (searchVal : string) (caseSensitive : bool) (t : Task)
  : bool :=
  match getName t with
  | Some name =>
    includes (if caseSensitive then name else toLowerCase name) searchVal
  | None => false
  end.

(** One round of the loop of [findTasksByName] on a task with a name. *)
Definition keepIfMatch (searchVal : string) (caseSensitive : bool)
    (foundTasks : Obj Task) (element : Task) : Obj Task :=
  if nameMatches searchVal caseSensitive element
  then obj_set foundTasks (getId element) (getCopy element)
  else foundTasks.

(** Every stored task has a name. *)
Definition allNamed (tl : TaskList) : Prop :=
  Forall (fun t => getName t <> None) (obj_values (tasks tl)).

(** The timers that were armed and not cancelled since, oldest first. *)
Definition pendingStep (pending : list nat) (c : TimerCall) : list nat :=
  match c with
  | SetTimeout timer _ => pending ++ [timer]
  | ClearTimeout timer => remove Nat.eq_dec timer pending
  end.

Definition pendingTimers (calls : list TimerCall) : list nat :=
  fold_left pendingStep calls [].

(** The tracker fields agree with each other and with the timers: either
    ids, timer and time are all set, the ids are distinct and the timer is
    the one pending timer, or all three are null and no timer is pending. *)
Definition timerOk (w : Host) (a : Agenda) : Prop :=
  match nextTasksIds a with
  | Some ids =>
    ids <> [] /\ NoDup ids /\ nextExecutionTime a <> None /\
    exists timer,
      activeTimerId a = Some timer /\ pendingTimers (timerCalls w) = [timer]
  | None =>
    activeTimerId a = None /\ nextExecutionTime a = None /\
    pendingTimers (timerCalls w) = []
  end.

(** The tracked ids are the ids of the first group of the timeline. *)
Definition trackedCurrent (a : Agenda) : Prop :=
  match nextTasksIds a with
  | Some ids => Permutation ids (getNextTaskIds (taskList a))
  | None => getNextTaskIds (taskList a) = []
  end.

(** No timer was armed with a negative delay. *)
Definition armedDelaysOk (w : Host) : Prop :=
  Forall (fun c => match c with
                   | SetTimeout _ (Int z) => 0 <= z
                   | _ => True
                   end) (timerCalls w).

(** What holds of an Agenda and its host between two calls. *)
Definition agendaOk (w : Host) (a : Agenda) : Prop :=
  timelineOk (taskList a) /\ groupsNonEmpty (taskList a) /\
  timerOk w a /\ trackedCurrent a /\ armedDelaysOk w.

(** The tracked ids, the empty array when the field is null. *)
Definition trackedIds (a : Agenda) : list string :=
  match nextTasksIds a with Some ids => ids | None => [] end.

(** The states an Agenda and its host go through: a new Agenda on a host
    that has armed no timer; then [addTasks], [removeTask] and
    [executeTaskNow] calls, the timer callback when a timer is tracked, and
    in between any change of the Dates and of the clock. *)
Inductive agendaReachable (rev : Revision) (run : Payloads)
  : Host -> Agenda -> Prop :=
| ar_new h n : agendaReachable rev run (mkHost h n []) newAgenda
| ar_world w a h n :
    agendaReachable rev run w a ->
    agendaReachable rev run (mkHost h n (timerCalls w)) a
| ar_add w a rnd newTasks w' a' rnd' count :
    agendaReachable rev run w a ->
    Agenda_addTasks rev w a rnd newTasks = Ok (w', a', rnd', count) ->
    agendaReachable rev run w' a'
| ar_remove w a taskIds w' a' count :
    agendaReachable rev run w a ->
    Agenda_removeTask rev w a taskIds = Ok (w', a', count) ->
    agendaReachable rev run w' a'
| ar_fire w a w' a' :
    agendaReachable rev run w a ->
    activeTimerId a <> None ->
    executeTrackedTasks rev run w a = Ok (w', a') ->
    agendaReachable rev run w' a'
| ar_now w a taskId removeAfterExecution w' a' count :
    agendaReachable rev run w a ->
    executeTaskNow rev run w a taskId removeAfterExecution = Ok (w', a', count) ->
    agendaReachable rev run w' a'.

(** A payload that sets the Date behind reference 1 to 0, for the
    examples. *)
Definition samplePayloads : Payloads :=
  fun _ _ h => Ok (setTime h 1%nat (Int 0)).

(** * Properties *)

(** ** Numbers as keys *)

Lemma Number_eqb_eq (a b : Number) : Number_eqb a b = true <-> a = b.
Proof.
  destruct a as [x|], b as [y|]; simpl; split; intro H;
    try discriminate; try reflexivity.
  - apply Z.eqb_eq in H. now subst.
  - injection H as ->. apply Z.eqb_refl.
Qed.

Lemma Number_eqb_refl (a : Number) : Number_eqb a a = true.
Proof. now apply Number_eqb_eq. Qed.

Lemma Number_eqb_neq (a b : Number) : Number_eqb a b = false <-> a <> b.
Proof.
  split.
  - intros H E. apply Number_eqb_eq in E. congruence.
  - intros H. destruct (Number_eqb a b) eqn:E; [|reflexivity].
    apply Number_eqb_eq in E. contradiction.
Qed.

Lemma key_lt_irrefl (a : Number) : ~ key_lt a a.
Proof. destruct a; simpl; lia. Qed.

Lemma key_le_refl (a : Number) : key_le a a.
Proof. now left. Qed.

Lemma key_le_trans (a b c : Number) : key_le a b -> key_le b c -> key_le a c.
Proof.
  unfold key_le. intros [->|H1] [->|H2]; auto.
  right. destruct a, b, c; simpl in *; try lia; auto.
Qed.

Lemma Math_min2_le_l (a b : Number) : key_le (Math_min2 a b) a.
Proof.
  unfold key_le. destruct a as [x|], b as [y|]; simpl; auto.
  destruct (Z.eq_dec (Z.min x y) x) as [->|Hne]; [now left|right; lia].
Qed.

Lemma Math_min2_le_r (a b : Number) : key_le (Math_min2 a b) b.
Proof.
  unfold key_le. destruct a as [x|], b as [y|]; simpl; auto.
  destruct (Z.eq_dec (Z.min x y) y) as [->|Hne]; [now left|right; lia].
Qed.

Lemma Math_min2_pick (a b : Number) : Math_min2 a b = a \/ Math_min2 a b = b.
Proof.
  destruct a as [x|], b as [y|]; simpl; auto.
  destruct (Z.min_spec x y) as [[? ->]|[? ->]]; auto.
Qed.

(** [Math.min] returns one of its arguments, and none of them comes
    before it. *)
Lemma Math_min_spec (ks : list Number) (k : Number) :
  In (Math_min k ks) (k :: ks) /\
  forall x, In x (k :: ks) -> key_le (Math_min k ks) x.
Proof.
  unfold Math_min. revert k.
  induction ks as [|k' ks IH]; intros k; simpl.
  - split; [now left|]. intros x [->|[]]. apply key_le_refl.
  - destruct (IH (Math_min2 k k')) as [Hin Hle]. split.
    + destruct Hin as [E|Hin]; [|now right; right].
      rewrite <- E. destruct (Math_min2_pick k k') as [->| ->]; auto.
    + intros x [->|[->|Hx]].
      * eapply key_le_trans; [apply Hle; now left|apply Math_min2_le_l].
      * eapply key_le_trans; [apply Hle; now left|apply Math_min2_le_r].
      * apply Hle. now right.
Qed.

(** ** The [delays] object *)

Lemma delays_get_In (d : Delays) (k : Number) (ids : list string) :
  delays_get d k = Some ids -> In (k, ids) d.
Proof.
  induction d as [|[k' ids'] d IH]; simpl; [discriminate|].
  destruct (Number_eqb k' k) eqn:E.
  - apply Number_eqb_eq in E. intros [= <-]. subst. now left.
  - intros H. right. auto.
Qed.

Lemma delays_get_None (d : Delays) (k : Number) :
  delays_get d k = None <-> ~ In k (map fst d).
Proof.
  induction d as [|[k' ids'] d IH]; simpl.
  - split; auto.
  - destruct (Number_eqb k' k) eqn:E.
    + apply Number_eqb_eq in E. split; [discriminate|]. intros H. exfalso. auto.
    + apply Number_eqb_neq in E. rewrite IH. split; intros H; [|tauto].
      intros [?|?]; auto.
Qed.

Lemma delays_get_of_In (d : Delays) (k : Number) (ids : list string) :
  NoDup (map fst d) -> In (k, ids) d -> delays_get d k = Some ids.
Proof.
  induction d as [|[k' ids'] d IH]; simpl; [tauto|].
  intros Hnd [E|Hin].
  - injection E as -> ->. now rewrite Number_eqb_refl.
  - inversion Hnd as [|? ? Hnotin Hnd']; subst.
    destruct (Number_eqb k' k) eqn:E; [|auto].
    apply Number_eqb_eq in E. subst. exfalso. apply Hnotin.
    apply (in_map fst) in Hin. exact Hin.
Qed.

Lemma delays_get_add (d : Delays) (k : Number) (id : string) (k' : Number) :
  delays_get (delays_add d k id) k' =
  if Number_eqb k k'
  then Some (match delays_get d k with Some ids => ids ++ [id] | None => [id] end)
  else delays_get d k'.
Proof.
  induction d as [|[k0 ids0] d IH]; simpl.
  - reflexivity.
  - destruct (Number_eqb k0 k) eqn:E0; simpl.
    + apply Number_eqb_eq in E0. subst k0.
      destruct (Number_eqb k k'); reflexivity.
    + destruct (Number_eqb k0 k') eqn:E1.
      * apply Number_eqb_eq in E1. apply Number_eqb_neq in E0. subst k0.
        now rewrite (proj2 (Number_eqb_neq k k')) by congruence.
      * exact IH.
Qed.

Lemma delays_add_keys (d : Delays) (k : Number) (id : string) :
  map fst (delays_add d k id) =
  match delays_get d k with
  | Some _ => map fst d
  | None => map fst d ++ [k]
  end.
Proof.
  induction d as [|[k0 ids0] d IH]; simpl; [reflexivity|].
  destruct (Number_eqb k0 k) eqn:E0; simpl; [reflexivity|].
  rewrite IH. now destruct (delays_get d k).
Qed.

Lemma delays_add_concat (d : Delays) (k : Number) (id : string) :
  Permutation (concat (map snd (delays_add d k id))) (id :: concat (map snd d)).
Proof.
  induction d as [|[k0 ids0] d IH]; simpl; [reflexivity|].
  destruct (Number_eqb k0 k); simpl.
  - rewrite <- app_assoc. simpl. symmetry. apply Permutation_middle.
  - rewrite IH. symmetry. apply Permutation_middle.
Qed.

Lemma delays_add_nonempty (d : Delays) (k : Number) (id : string) :
  Forall (fun p => snd p <> []) d ->
  Forall (fun p => snd p <> []) (delays_add d k id).
Proof.
  induction 1 as [|[k0 ids0] d H0 H IH]; simpl.
  - constructor; [simpl; discriminate|constructor].
  - destruct (Number_eqb k0 k); constructor; auto.
    simpl. destruct ids0; discriminate.
Qed.

Lemma delays_delete_perm (d : Delays) (m : Number) (ids : list string) :
  delays_get d m = Some ids -> Permutation d ((m, ids) :: delays_delete d m).
Proof.
  induction d as [|[k0 ids0] d IH]; simpl; [discriminate|].
  destruct (Number_eqb k0 m) eqn:E.
  - apply Number_eqb_eq in E. intros [= ->]. now subst.
  - intros H. rewrite (IH H) at 1. apply perm_swap.
Qed.

Lemma idsWithKey_app key ts1 ts2 k :
  idsWithKey key (ts1 ++ ts2) k = idsWithKey key ts1 k ++ idsWithKey key ts2 k.
Proof. unfold idsWithKey. now rewrite filter_app, map_app. Qed.

Lemma collectDelays_snoc key ts t :
  collectDelays key (ts ++ [t]) =
  delays_add (collectDelays key ts) (key t) (getId t).
Proof. unfold collectDelays. now rewrite fold_left_app. Qed.

(** After the first loop, [delays[k]] holds the ids of exactly the tasks
    whose delay is [k], and there is no entry for a delay no task has. *)
Lemma collectDelays_get key ts k :
  delays_get (collectDelays key ts) k =
  match idsWithKey key ts k with
  | [] => None
  | ids => Some ids
  end.
Proof.
  induction ts as [|t ts IH] using rev_ind.
  - reflexivity.
  - rewrite collectDelays_snoc, delays_get_add, idsWithKey_app.
    unfold idsWithKey at 2. simpl.
    destruct (Number_eqb (key t) k) eqn:E; simpl.
    + apply Number_eqb_eq in E. subst k. rewrite IH.
      destruct (idsWithKey key ts (key t)); reflexivity.
    + rewrite app_nil_r. exact IH.
Qed.

Lemma collectDelays_NoDup key ts : NoDup (map fst (collectDelays key ts)).
Proof.
  induction ts as [|t ts IH] using rev_ind.
  - constructor.
  - rewrite collectDelays_snoc, delays_add_keys.
    destruct (delays_get (collectDelays key ts) (key t)) eqn:E; [exact IH|].
    apply delays_get_None in E.
    apply NoDup_rev in IH. rewrite <- (rev_involutive (_ ++ _)).
    apply NoDup_rev. rewrite rev_app_distr. simpl. constructor; [|exact IH].
    now rewrite <- in_rev.
Qed.

Lemma collectDelays_nonempty key ts :
  Forall (fun p => snd p <> []) (collectDelays key ts).
Proof.
  induction ts as [|t ts IH] using rev_ind.
  - constructor.
  - rewrite collectDelays_snoc. now apply delays_add_nonempty.
Qed.

Lemma collectDelays_concat key ts :
  Permutation (concat (map snd (collectDelays key ts))) (map getId ts).
Proof.
  induction ts as [|t ts IH] using rev_ind.
  - reflexivity.
  - rewrite collectDelays_snoc, delays_add_concat, IH, map_app. simpl.
    apply Permutation_cons_append.
Qed.

(** ** The second loop of [organizeTasks] *)

(** With more rounds allowed than [delays] has keys, the loop ends, and it
    has appended every entry of [delays], the keys in [key_lt] order. *)
Lemma drainDelays_spec (fuel : nat) :
  forall (d : Delays) (tl0 : list (list string)),
    NoDup (map fst d) ->
    Forall (fun p => snd p <> []) d ->
    (length d < fuel)%nat ->
    exists d',
      Permutation d d' /\
      StronglySorted key_lt (map fst d') /\
      drainDelays fuel d tl0 = Some (tl0 ++ map snd d').
Proof.
  induction fuel as [|fuel IH]; intros d tl0 Hnd Hne Hlen; [lia|].
  destruct d as [|[k ids] rest].
  - exists []. simpl. rewrite app_nil_r. repeat split; constructor.
  - cbn [drainDelays map fst].
    set (d := (k, ids) :: rest) in *.
    set (m := Math_min k (map fst rest)).
    destruct (Math_min_spec (map fst rest) k) as [Hin Hmin]. fold m in Hin, Hmin.
    change (k :: map fst rest) with (map fst d) in Hin, Hmin.
    destruct (delays_get d m) as [ids_m|] eqn:Hget;
      [|apply delays_get_None in Hget; contradiction].
    pose proof (delays_delete_perm d m ids_m Hget) as Hperm.
    assert (Hne_m : ids_m <> []).
    { apply delays_get_In in Hget.
      rewrite Forall_forall in Hne. exact (Hne _ Hget). }
    assert (Hpos : (0 <? length ids_m)%nat = true).
    { apply Nat.ltb_lt. destruct ids_m; [contradiction|simpl; lia]. }
    rewrite Hpos.
    assert (Hnd' : NoDup (m :: map fst (delays_delete d m))).
    { eapply Permutation_NoDup; [|exact Hnd].
      change (m :: map fst (delays_delete d m))
        with (map fst ((m, ids_m) :: delays_delete d m)).
      now apply Permutation_map. }
    inversion Hnd' as [|? ? Hnotin Hnd'']; subst.
    destruct (IH (delays_delete d m) (tl0 ++ [ids_m])) as (d'' & Hp'' & Hs'' & Hrun).
    + exact Hnd''.
    + eapply Permutation_Forall in Hne; [|exact Hperm]. now inversion Hne.
    + assert (Hl : length d = S (length (delays_delete d m)))
        by exact (Permutation_length Hperm).
      lia.
    + exists ((m, ids_m) :: d''). split; [|split].
      * rewrite Hperm. now constructor.
      * simpl. constructor; [exact Hs''|].
        apply Forall_forall. intros x Hx.
        assert (Hx' : In x (map fst (delays_delete d m))).
        { eapply Permutation_in; [|exact Hx].
          apply Permutation_map. now symmetry. }
        destruct (Hmin x) as [E|Hlt]; [|subst; contradiction|exact Hlt].
        eapply Permutation_in; [apply Permutation_map; symmetry; exact Hperm|].
        simpl. now right.
      * rewrite Hrun. simpl. now rewrite <- app_assoc.
Qed.

(** The loop of [organizeTasks] terminates within the rounds it is given. *)
Lemma drainDelays_terminates key ts :
  exists newTimeline,
    drainDelays (S (length (collectDelays key ts))) (collectDelays key ts) []
    = Some newTimeline.
Proof.
  destruct (drainDelays_spec (S (length (collectDelays key ts)))
              (collectDelays key ts) [])
    as (d' & _ & _ & Hrun).
  - apply collectDelays_NoDup.
  - apply collectDelays_nonempty.
  - lia.
  - eauto.
Qed.

(** [organizeTasks] leaves [#tasks] alone and writes a timeline that lists
    the entries of [delays], the keys in [key_lt] order. *)
Lemma organizeBy_spec key (tl : TaskList) :
  exists d',
    Permutation (collectDelays key (obj_values (tasks tl))) d' /\
    StronglySorted key_lt (map fst d') /\
    organizeBy key tl = mkTaskList (tasks tl) (map snd d').
Proof.
  unfold organizeBy.
  destruct (drainDelays_spec
              (S (length (collectDelays key (obj_values (tasks tl)))))
              (collectDelays key (obj_values (tasks tl))) [])
    as (d' & Hp & Hs & Hrun).
  - apply collectDelays_NoDup.
  - apply collectDelays_nonempty.
  - lia.
  - exists d'. rewrite Hrun. auto.
Qed.

Lemma organizeBy_tasks key tl : tasks (organizeBy key tl) = tasks tl.
Proof. destruct (organizeBy_spec key tl) as (d' & _ & _ & ->). reflexivity. Qed.

(** The timeline that [organizeTasks] writes lists the ids of the stored
    tasks, each as often as it is stored. *)
Lemma organizeBy_concat key tl :
  Permutation (concat (timeline (organizeBy key tl)))
              (map getId (obj_values (tasks tl))).
Proof.
  destruct (organizeBy_spec key tl) as (d' & Hp & _ & ->). simpl.
  rewrite <- (collectDelays_concat key).
  rewrite Hp. reflexivity.
Qed.

(** ** Dictionaries *)

Lemma obj_get_None {V} (o : Obj V) (k : string) :
  obj_get o k = None <-> ~ In k (obj_keys o).
Proof.
  induction o as [|[k' v'] o IH]; simpl.
  - split; auto.
  - destruct (String.eqb k' k) eqn:E.
    + apply String.eqb_eq in E. split; [discriminate|]. intros H. exfalso. auto.
    + apply String.eqb_neq in E. rewrite IH. split; intros H; [|tauto].
      intros [?|?]; auto.
Qed.

Lemma obj_get_In {V} (o : Obj V) (k : string) (v : V) :
  obj_get o k = Some v -> In (k, v) o.
Proof.
  induction o as [|[k' v'] o IH]; simpl; [discriminate|].
  destruct (String.eqb k' k) eqn:E.
  - apply String.eqb_eq in E. intros [= <-]. subst. now left.
  - intros H. right. auto.
Qed.

Lemma obj_get_of_In {V} (o : Obj V) (k : string) (v : V) :
  NoDup (obj_keys o) -> In (k, v) o -> obj_get o k = Some v.
Proof.
  induction o as [|[k' v'] o IH]; simpl; [tauto|].
  intros Hnd [E|Hin].
  - injection E as -> ->. now rewrite String.eqb_refl.
  - inversion Hnd as [|? ? Hnotin Hnd']; subst.
    destruct (String.eqb k' k) eqn:E; [|auto].
    apply String.eqb_eq in E. subst. exfalso. apply Hnotin.
    apply (in_map fst) in Hin. exact Hin.
Qed.

Lemma obj_insert_index_perm {V} (o : Obj V) n k (v : V) :
  Permutation (obj_insert_index o n k v) ((k, v) :: o).
Proof.
  induction o as [|[k' v'] o IH]; simpl; [reflexivity|].
  destruct (array_index k') as [m|]; [|reflexivity].
  destruct (m <? n); [|reflexivity].
  rewrite IH. apply perm_swap.
Qed.

(** Storing under a key the object does not have adds one property. *)
Lemma obj_set_fresh_perm {V} (o : Obj V) k (v : V) :
  obj_get o k = None -> Permutation (obj_set o k v) ((k, v) :: o).
Proof.
  intros H. unfold obj_set. rewrite H.
  destruct (array_index k).
  - apply obj_insert_index_perm.
  - symmetry. apply Permutation_cons_append.
Qed.

Lemma obj_delete_incl {V} (o : Obj V) k : incl (obj_delete o k) o.
Proof.
  induction o as [|[k' v'] o IH]; simpl; [apply incl_refl|].
  destruct (String.eqb k' k).
  - apply incl_tl, incl_refl.
  - intros x [<-|Hx]; [now left|right; now apply IH].
Qed.

Lemma obj_delete_keys_incl {V} (o : Obj V) k :
  incl (obj_keys (obj_delete o k)) (obj_keys o).
Proof.
  intros x Hx. unfold obj_keys in *. apply in_map_iff in Hx.
  destruct Hx as (p & <- & Hp). apply in_map. exact (obj_delete_incl o k p Hp).
Qed.

Lemma obj_delete_NoDup {V} (o : Obj V) k :
  NoDup (obj_keys o) -> NoDup (obj_keys (obj_delete o k)).
Proof.
  induction o as [|[k' v'] o IH]; simpl; [auto|].
  intros Hnd. inversion Hnd as [|? ? Hnotin Hnd']; subst.
  destruct (String.eqb k' k); [exact Hnd'|].
  simpl. constructor; [|auto].
  intros Hin. apply Hnotin. now apply (obj_delete_keys_incl o k).
Qed.

(** [delete o[k]] removes the key [k] and no other key. *)
Lemma obj_delete_keys {V} (o : Obj V) k x :
  NoDup (obj_keys o) ->
  (In x (obj_keys (obj_delete o k)) <-> In x (obj_keys o) /\ x <> k).
Proof.
  induction o as [|[k' v'] o IH]; simpl; [tauto|].
  intros Hnd. inversion Hnd as [|? ? Hnotin Hnd']; subst.
  destruct (String.eqb k' k) eqn:E.
  - apply String.eqb_eq in E. subst k'. split.
    + intros Hx. split; [now right|]. intros ->. contradiction.
    + intros [[->|Hx] Hne]; [contradiction|exact Hx].
  - apply String.eqb_neq in E. simpl. rewrite (IH Hnd'). split.
    + intros [->|[Hx Hne]]; split; auto.
    + intros [[->|Hx] Hne]; auto.
Qed.

Lemma obj_delete_absent {V} (o : Obj V) k :
  obj_get o k = None -> obj_delete o k = o.
Proof.
  induction o as [|[k' v'] o IH]; simpl; [reflexivity|].
  destruct (String.eqb k' k); [discriminate|].
  intros H. now rewrite IH.
Qed.

(** ** Ids *)

Lemma existsb_eqb_In (x : string) (l : list string) :
  existsb (String.eqb x) l = true <-> In x l.
Proof.
  rewrite existsb_exists. split.
  - intros (y & Hy & E). apply String.eqb_eq in E. now subst.
  - intros H. exists x. split; [exact H|apply String.eqb_refl].
Qed.

(** The id that [#generateUniqueID] returns is no key of [#tasks]. *)
Lemma generateUniqueID_fresh keys rnd id rnd' :
  generateUniqueID keys rnd = Ok (id, rnd') -> ~ In id keys.
Proof.
  revert id rnd'. induction rnd as [|b rnd IH]; simpl; intros id rnd'; [discriminate|].
  destruct (existsb (String.eqb (toString_hex b)) keys) eqn:E.
  - apply IH.
  - intros [= <- <-]. rewrite <- existsb_eqb_In. now rewrite E.
Qed.

(** [#generateUniqueID] returns as soon as the random source yields a
    buffer whose hex string is not taken. *)
Lemma generateUniqueID_returns keys rnd :
  (exists b, In b rnd /\ ~ In (toString_hex b) keys) ->
  exists id rnd', generateUniqueID keys rnd = Ok (id, rnd').
Proof.
  induction rnd as [|b rnd IH]; simpl; intros (b0 & Hin & Hfree); [contradiction|].
  destruct (existsb (String.eqb (toString_hex b)) keys) eqn:E.
  - apply IH. destruct Hin as [->|Hin]; [|eauto].
    apply existsb_eqb_In in E. contradiction.
  - eauto.
Qed.

(** ** The stored tasks *)

Lemma storeOk_ids ts :
  Forall (fun kv : string * Task => getId (snd kv) = fst kv) ts ->
  map getId (obj_values ts) = obj_keys ts.
Proof.
  induction 1 as [|[k t] ts H0 H IH]; simpl; [reflexivity|].
  simpl in H0. now rewrite H0, IH.
Qed.

Lemma storeOk_empty : storeOk [].
Proof. split; constructor. Qed.

Lemma addTask_prv_storeOk ts rnd newTask ts' rnd' :
  storeOk ts ->
  addTask_prv ts rnd newTask = Ok (ts', rnd') ->
  storeOk ts'.
Proof.
  intros [Hnd Hid]. unfold addTask_prv.
  destruct (generateUniqueID (obj_keys ts) rnd) as [[newId rnd1]| |] eqn:G;
    simpl; try discriminate.
  intros [= <- <-].
  apply generateUniqueID_fresh in G.
  assert (Hp := obj_set_fresh_perm ts newId (setId (getCopy newTask) newId)
                  (proj2 (obj_get_None ts newId) G)).
  split.
  - eapply Permutation_NoDup.
    + symmetry. unfold obj_keys. apply Permutation_map. exact Hp.
    + simpl. now constructor.
  - eapply Permutation_Forall; [symmetry; exact Hp|].
    constructor; [reflexivity|exact Hid].
Qed.

Lemma addTasks_loop_storeOk newTasks :
  forall ts rnd changed ts' rnd' changed',
    storeOk ts ->
    addTasks_loop ts rnd newTasks changed = Ok (ts', rnd', changed') ->
    storeOk ts' /\ (changed' = false -> ts' = ts /\ changed = false).
Proof.
  induction newTasks as [|[newTask|v] rest IH];
    intros ts rnd changed ts' rnd' changed' Hok; simpl.
  - intros [= <- <- <-]. auto.
  - destruct (addTask_prv ts rnd newTask) as [[ts1 rnd1]| |] eqn:A;
      simpl; try discriminate.
    intros Hrun.
    destruct (IH _ _ _ _ _ _ (addTask_prv_storeOk _ _ _ _ _ Hok A) Hrun)
      as [Hok' Hsame].
    split; [exact Hok'|]. intros E. destruct (Hsame E) as [_ ?]. discriminate.
  - apply IH. exact Hok.
Qed.

Lemma removeTasks_loop_storeOk taskIds :
  forall ts changed ts' changed',
    storeOk ts ->
    removeTasks_loop ts taskIds changed = (ts', changed') ->
    storeOk ts' /\ (changed' = false -> ts' = ts /\ changed = false).
Proof.
  induction taskIds as [|taskId rest IH]; intros ts changed ts' changed' Hok; simpl.
  - intros [= <- <-]. auto.
  - assert (Hdel : storeOk (obj_delete ts taskId)).
    { destruct Hok as [Hnd Hid]. split; [now apply obj_delete_NoDup|].
      apply Forall_forall. intros kv Hkv. rewrite Forall_forall in Hid.
      apply Hid. exact (obj_delete_incl ts taskId kv Hkv). }
    destruct (obj_read ts taskId) eqn:R.
    + intros Hrun. destruct (IH _ _ _ _ Hdel Hrun) as [Hok' Hsame].
      split; [exact Hok'|]. intros E. destruct (Hsame E) as [_ ?]. discriminate.
    + intros Hrun. destruct (IH _ _ _ _ Hdel Hrun) as [Hok' Hsame].
      split; [exact Hok'|]. intros E. destruct (Hsame E) as [_ ?]. discriminate.
    + apply IH. exact Hok.
Qed.

(** ** The timeline invariant *)

Lemma timelineOk_empty : timelineOk emptyTaskList.
Proof. split; [apply storeOk_empty|reflexivity]. Qed.

Lemma organizeTasks_timelineOk rev h tl :
  storeOk (tasks tl) -> timelineOk (organizeTasks rev h tl).
Proof.
  intros Hok. unfold timelineOk, organizeTasks.
  rewrite organizeBy_tasks. split; [exact Hok|].
  rewrite organizeBy_concat. rewrite storeOk_ids; [reflexivity|apply Hok].
Qed.

Lemma addTasks_timelineOk rev h tl rnd newTasks tl' rnd' changed :
  timelineOk tl ->
  addTasks rev h tl rnd newTasks = Ok (tl', rnd', changed) ->
  timelineOk tl'.
Proof.
  intros [Hok Hperm]. unfold addTasks.
  destruct (addTasks_loop (tasks tl) rnd newTasks false)
    as [[[ts rnd1] c]| |] eqn:L; simpl; try discriminate.
  destruct (addTasks_loop_storeOk _ _ _ _ _ _ _ Hok L) as [Hok' Hsame].
  destruct c.
  - intros [= <- <- <-]. now apply organizeTasks_timelineOk.
  - intros [= <- <- <-]. destruct (Hsame eq_refl) as [-> _].
    split; [exact Hok|exact Hperm].
Qed.

Lemma removeTasks_timelineOk rev h tl taskIds tl' changed :
  timelineOk tl ->
  removeTasks rev h tl taskIds = (tl', changed) ->
  timelineOk tl'.
Proof.
  intros [Hok Hperm]. unfold removeTasks.
  destruct (removeTasks_loop (tasks tl) taskIds false) as [ts c] eqn:L.
  destruct (removeTasks_loop_storeOk _ _ _ _ _ Hok L) as [Hok' Hsame].
  destruct c.
  - intros [= <- <-]. now apply organizeTasks_timelineOk.
  - intros [= <- <-]. destruct (Hsame eq_refl) as [-> _].
    split; [exact Hok|exact Hperm].
Qed.

Lemma newTaskList_timelineOk rev h rnd args tl rnd' :
  newTaskList rev h rnd args = Ok (tl, rnd') -> timelineOk tl.
Proof.
  unfold newTaskList.
  destruct (addTasks_loop [] rnd args false) as [[[ts rnd1] c]| |] eqn:L;
    simpl; try discriminate.
  destruct (addTasks_loop_storeOk _ _ _ _ _ _ _ storeOk_empty L) as [Hok' Hsame].
  destruct (0 <? taskCount (mkTaskList ts []))%nat eqn:C.
  - intros [= <- <-]. now apply organizeTasks_timelineOk.
  - intros [= <- <-]. split; [exact Hok'|]. simpl.
    apply Nat.ltb_ge in C. unfold taskCount in C. simpl in C.
    destruct (obj_keys ts); [reflexivity|simpl in C; lia].
Qed.

Lemma reachable_timelineOk rev tl : reachable rev tl -> timelineOk tl.
Proof.
  induction 1.
  - apply timelineOk_empty.
  - eapply newTaskList_timelineOk; eauto.
  - eapply addTasks_timelineOk; eauto.
  - eapply removeTasks_timelineOk; eauto.
  - apply organizeTasks_timelineOk. apply IHreachable.
Qed.

(** In a list without repetition, an element of a concatenation sits in
    one segment only. *)
Lemma concat_NoDup_unique {A} (gs : list (list A)) :
  NoDup (concat gs) ->
  forall i j gi gj x,
    nth_error gs i = Some gi -> nth_error gs j = Some gj ->
    In x gi -> In x gj -> i = j.
Proof.
  induction gs as [|g gs IH]; intros Hnd i j gi gj x Hi Hj Hxi Hxj.
  - destruct i; discriminate.
  - simpl in Hnd.
    assert (Hdisj : forall y, In y g -> ~ In y (concat gs)).
    { intros y Hy Hy'. revert Hnd Hy Hy'. clear.
      induction g as [|a g IHg]; simpl; intros Hnd Hy Hy'; [contradiction|].
      inversion Hnd as [|? ? Hnotin Hnd']; subst.
      destruct Hy as [->|Hy]; [|now apply IHg].
      apply Hnotin. apply in_or_app. now right. }
    assert (Hin : forall n gn, nth_error gs n = Some gn -> In x gn -> In x (concat gs)).
    { intros n gn Hn Hx. apply in_concat. exists gn. split; [|exact Hx].
      eapply nth_error_In; eauto. }
    destruct i as [|i], j as [|j]; simpl in Hi, Hj.
    + reflexivity.
    + injection Hi as <-. exfalso. eapply Hdisj; eauto.
    + injection Hj as <-. exfalso. eapply Hdisj; eauto.
    + f_equal. eapply IH; eauto. now apply NoDup_app_remove_l in Hnd.
Qed.

(** ** The worked data comes out of the code *)

(** The constructors, called in turn on [pastHost], build the three
    tasks and leave the Dates as [sampleDates]. *)
Lemma sample_tasks_created :
  exists w1 w2,
    createTaskWithExecutionTime pastHost (VDate 0%nat) (VFunction 0%nat) []
      = Ok (w1, taskA) /\
    createTaskWithExecutionTime w1 (VDate 1%nat) (VFunction 0%nat) []
      = Ok (w2, taskB) /\
    createTaskWithExecutionDelay w2 (VNumber (NumInteger 2000)) (VFunction 0%nat) []
      = Ok (sampleHost, taskC).
Proof. do 2 eexists. repeat split. Qed.

(** [addTasks(taskA, taskB)] of [src/TaskList.js] on a new list. *)
Lemma listAB_added :
  addTasks Unclamped sampleDates emptyTaskList sampleRandom [ATask taskA; ATask taskB]
  = Ok (listAB, [(Byte.x01, Byte.x02, Byte.x03, Byte.x04, Byte.x05)], true).
Proof. vm_compute. reflexivity. Qed.

(** ** C1: the timeline partitions the stored ids *)

(** C1.  Whatever sequence of constructor, [addTasks], [removeTasks] and
    [organizeTasks] calls produced a TaskList, the groups of its timeline
    together hold exactly the keys of [#tasks]: each stored id is in one
    group and in no other, no group holds an id that is not stored, and no
    id is listed twice. *)
Theorem C1_timeline_partitions_ids (rev : Revision) (tl : TaskList) :
  reachable rev tl ->
  (forall id, In id (obj_keys (tasks tl)) ->
     exists i, inGroup tl i id /\ forall j, inGroup tl j id -> j = i) /\
  (forall i id, inGroup tl i id -> In id (obj_keys (tasks tl))) /\
  NoDup (concat (timeline tl)).
Proof.
  intros Hr. destruct (reachable_timelineOk rev tl Hr) as [[Hnd _] Hperm].
  assert (Hnd' : NoDup (concat (timeline tl))).
  { eapply Permutation_NoDup; [symmetry; exact Hperm|exact Hnd]. }
  split; [|split; [|exact Hnd']].
  - intros id Hid.
    assert (Hc : In id (concat (timeline tl))).
    { eapply Permutation_in; [symmetry; exact Hperm|exact Hid]. }
    apply in_concat in Hc. destruct Hc as (g & Hg & Hidg).
    apply In_nth_error in Hg. destruct Hg as [i Hi].
    exists i. split; [exists g; auto|].
    intros j (g' & Hj & Hidg').
    eapply concat_NoDup_unique; eauto.
  - intros i id (g & Hi & Hidg).
    eapply Permutation_in; [exact Hperm|].
    apply in_concat. exists g. split; [|exact Hidg].
    eapply nth_error_In; eauto.
Qed.

Lemma C1_witness :
  (forall id, In id (obj_keys (tasks listAB)) ->
     exists i, inGroup listAB i id /\ forall j, inGroup listAB j id -> j = i) /\
  (forall i id, inGroup listAB i id -> In id (obj_keys (tasks listAB))) /\
  NoDup (concat (timeline listAB)).
Proof.
  apply (C1_timeline_partitions_ids Unclamped listAB).
  apply (reach_add Unclamped sampleDates emptyTaskList sampleRandom
           [ATask taskA; ATask taskB] listAB
           [(Byte.x01, Byte.x02, Byte.x03, Byte.x04, Byte.x05)] true).
  - apply reach_empty.
  - vm_compute. reflexivity.
Defined.

(** ** C10: no group of the timeline is empty *)

Lemma organizeBy_groupsNonEmpty key tl : groupsNonEmpty (organizeBy key tl).
Proof.
  unfold groupsNonEmpty.
  destruct (organizeBy_spec key tl) as (d' & Hp & _ & ->). simpl.
  apply Forall_map.
  eapply Permutation_Forall; [exact Hp|apply collectDelays_nonempty].
Qed.

Lemma addTasks_groupsNonEmpty rev h tl rnd newTasks tl' rnd' changed :
  groupsNonEmpty tl ->
  addTasks rev h tl rnd newTasks = Ok (tl', rnd', changed) ->
  groupsNonEmpty tl'.
Proof.
  intros Hne. unfold addTasks.
  destruct (addTasks_loop (tasks tl) rnd newTasks false)
    as [[[ts rnd1] c]| |]; simpl; try discriminate.
  destruct c; intros [= <- <- <-].
  - apply organizeBy_groupsNonEmpty.
  - exact Hne.
Qed.

Lemma removeTasks_groupsNonEmpty rev h tl taskIds :
  groupsNonEmpty tl -> groupsNonEmpty (fst (removeTasks rev h tl taskIds)).
Proof.
  intros Hne. unfold removeTasks.
  destruct (removeTasks_loop (tasks tl) taskIds false) as [ts c].
  destruct c; simpl.
  - apply organizeBy_groupsNonEmpty.
  - exact Hne.
Qed.

Lemma newTaskList_groupsNonEmpty rev h rnd args tl rnd' :
  newTaskList rev h rnd args = Ok (tl, rnd') -> groupsNonEmpty tl.
Proof.
  unfold newTaskList.
  destruct (addTasks_loop [] rnd args false) as [[[ts rnd1] c]| |];
    simpl; try discriminate.
  destruct (0 <? taskCount (mkTaskList ts []))%nat; intros [= <- <-].
  - apply organizeBy_groupsNonEmpty.
  - constructor.
Qed.

Lemma getNextTaskIds_nonempty tl :
  groupsNonEmpty tl -> (getNextTaskIds tl <> [] <-> timeline tl <> []).
Proof.
  unfold groupsNonEmpty, getNextTaskIds.
  destruct (timeline tl) as [|g gs]; simpl.
  - intros _. split; intros H; exfalso; now apply H.
  - intros Hne. inversion Hne as [|? ? Hg _]; subst.
    destruct g as [|x g]; [contradiction|]. simpl.
    split; intros _; discriminate.
Qed.

(** C10.  The constructor and [organizeTasks] write a timeline without
    empty groups, [addTasks] and [removeTasks] keep a timeline without
    empty groups that way, and on such a timeline [getNextTaskIds] returns
    a non-empty array exactly when the timeline has a group. *)
Theorem C10_groups_never_empty (rev : Revision) (h : DateHeap) (tl : TaskList) :
  groupsNonEmpty tl ->
  groupsNonEmpty (organizeTasks rev h tl) /\
  (forall rnd args tl' rnd',
     newTaskList rev h rnd args = Ok (tl', rnd') -> groupsNonEmpty tl') /\
  (forall rnd newTasks tl' rnd' changed,
     addTasks rev h tl rnd newTasks = Ok (tl', rnd', changed) ->
     groupsNonEmpty tl') /\
  (forall taskIds, groupsNonEmpty (fst (removeTasks rev h tl taskIds))) /\
  (getNextTaskIds tl <> [] <-> timeline tl <> []).
Proof.
  intros Hne. repeat split.
  - apply organizeBy_groupsNonEmpty.
  - intros. eapply newTaskList_groupsNonEmpty; eauto.
  - intros. eapply addTasks_groupsNonEmpty; eauto.
  - intros. now apply removeTasks_groupsNonEmpty.
  - now apply getNextTaskIds_nonempty.
  - now apply getNextTaskIds_nonempty.
Qed.

Lemma C10_witness :
  groupsNonEmpty listAB /\
  groupsNonEmpty (fst (removeTasks Unclamped sampleDates listAB ["1234567890"])) /\
  (getNextTaskIds listAB <> [] <-> timeline listAB <> []).
Proof.
  assert (H : groupsNonEmpty listAB).
  { unfold groupsNonEmpty. simpl. repeat constructor; discriminate. }
  split; [exact H|].
  destruct (C10_groups_never_empty Unclamped sampleDates listAB H)
    as (_ & _ & _ & Hrem & Hnext).
  split; [apply Hrem|exact Hnext].
Defined.

(** ** Which tasks share a group, and the order of the groups *)

Lemma key_lt_asym (a b : Number) : key_lt a b -> ~ key_lt b a.
Proof. destruct a, b; simpl; lia. Qed.

Lemma StronglySorted_nth {A} (R : A -> A -> Prop) (l : list A) :
  StronglySorted R l ->
  forall i j a b,
    (i < j)%nat -> nth_error l i = Some a -> nth_error l j = Some b -> R a b.
Proof.
  induction 1 as [|x l Hs IH Hall]; intros i j a b Hlt Hi Hj.
  - destruct i; discriminate.
  - destruct j as [|j]; [lia|]. simpl in Hj.
    destruct i as [|i]; simpl in Hi.
    + injection Hi as <-. rewrite Forall_forall in Hall.
      apply Hall. eapply nth_error_In; eauto.
    + apply (IH i j a b); [lia|exact Hi|exact Hj].
Qed.

Lemma stored_getId_inj (ts : Obj Task) (t t' : Task) :
  storeOk ts ->
  In t (obj_values ts) -> In t' (obj_values ts) ->
  getId t = getId t' -> t = t'.
Proof.
  intros [Hnd Hid] Ht Ht' E. unfold obj_values in *.
  apply in_map_iff in Ht. destruct Ht as ([k v] & <- & Hkv).
  apply in_map_iff in Ht'. destruct Ht' as ([k' v'] & <- & Hkv').
  rewrite Forall_forall in Hid.
  pose proof (Hid _ Hkv) as E1. pose proof (Hid _ Hkv') as E2.
  simpl in *. assert (Ek : k' = k) by congruence.
  rewrite Ek in Hkv'.
  pose proof (obj_get_of_In ts k v Hnd Hkv) as G1.
  pose proof (obj_get_of_In ts k v' Hnd Hkv') as G2.
  congruence.
Qed.

(** A group that [organizeTasks] wrote belongs to one key of [delays], and
    a stored task whose id is in the group has that key as its delay. *)
Lemma organizeBy_group_key key tl d' :
  storeOk (tasks tl) ->
  Permutation (collectDelays key (obj_values (tasks tl))) d' ->
  forall i g t,
    nth_error (map snd d') i = Some g ->
    In t (obj_values (tasks tl)) -> In (getId t) g ->
    nth_error (map fst d') i = Some (key t).
Proof.
  intros Hok Hp i g t Hi Ht Hin.
  rewrite nth_error_map in Hi. rewrite nth_error_map.
  destruct (nth_error d' i) as [[k g']|] eqn:Hn; [|discriminate].
  simpl in Hi. injection Hi as ->. simpl. f_equal.
  assert (Hkg : In (k, g) (collectDelays key (obj_values (tasks tl)))).
  { eapply Permutation_in; [symmetry; exact Hp|]. eapply nth_error_In; eauto. }
  apply delays_get_of_In in Hkg; [|apply collectDelays_NoDup].
  rewrite collectDelays_get in Hkg.
  assert (Hg : g = idsWithKey key (obj_values (tasks tl)) k).
  { destruct (idsWithKey key (obj_values (tasks tl)) k); congruence. }
  rewrite Hg in Hin. unfold idsWithKey in Hin.
  apply in_map_iff in Hin. destruct Hin as (t' & Eid & Hf).
  apply filter_In in Hf. destruct Hf as [Ht' Hk].
  apply Number_eqb_eq in Hk.
  assert (t' = t) by (eapply stored_getId_inj; eauto). now subst.
Qed.

(** After [organizeTasks], two stored tasks are in the same group exactly
    when they have the same delay, and the group of one comes before the
    group of the other exactly when its delay is the smaller one. *)
Lemma organizeBy_groups key tl :
  storeOk (tasks tl) ->
  forall i j t1 t2,
    In t1 (obj_values (tasks tl)) -> In t2 (obj_values (tasks tl)) ->
    inGroup (organizeBy key tl) i (getId t1) ->
    inGroup (organizeBy key tl) j (getId t2) ->
    (i = j <-> key t1 = key t2) /\
    ((i < j)%nat <-> key_lt (key t1) (key t2)).
Proof.
  intros Hok i j t1 t2 Ht1 Ht2.
  destruct (organizeBy_spec key tl) as (d' & Hp & Hs & ->).
  unfold inGroup. simpl. intros (g1 & Hi & Hin1) (g2 & Hj & Hin2).
  pose proof (organizeBy_group_key key tl d' Hok Hp i g1 t1 Hi Ht1 Hin1) as K1.
  pose proof (organizeBy_group_key key tl d' Hok Hp j g2 t2 Hj Ht2 Hin2) as K2.
  assert (Hlt : forall a b x y, (a < b)%nat ->
            nth_error (map fst d') a = Some x ->
            nth_error (map fst d') b = Some y -> key_lt x y).
  { intros. eapply StronglySorted_nth; eauto. }
  split; split.
  - intros <-. congruence.
  - intros E. destruct (Nat.lt_trichotomy i j) as [L|[L|L]]; [|exact L|].
    + exfalso. apply (key_lt_irrefl (key t1)).
      rewrite E at 2. eapply Hlt; eauto.
    + exfalso. apply (key_lt_irrefl (key t1)).
      rewrite E at 1. eapply Hlt; eauto.
  - intros L. eapply Hlt; eauto.
  - intros L. destruct (Nat.lt_trichotomy i j) as [L'|[L'|L']]; [exact L'| |].
    + subst j. exfalso. apply (key_lt_irrefl (key t1)). congruence.
    + exfalso. eapply key_lt_asym; [exact L|]. eapply Hlt; eauto.
Qed.

(** ** C2: grouping by the clamped delay *)

(** The copy of [TaskList.js] that takes [Math.max(..., 0)] groups by the
    clamped delay: stored tasks share a group exactly when their clamped
    delays are equal, and of two tasks with different integer delays the
    one with the smaller delay is in the earlier group. *)
Lemma Clamped_groups_by_clamped_delay (h : DateHeap) (tl : TaskList) :
  storeOk (tasks tl) ->
  forall i j t1 t2,
    In t1 (obj_values (tasks tl)) -> In t2 (obj_values (tasks tl)) ->
    inGroup (organizeTasks Clamped h tl) i (getId t1) ->
    inGroup (organizeTasks Clamped h tl) j (getId t2) ->
    (i = j <-> clampedDelay h t1 = clampedDelay h t2) /\
    (forall d1 d2,
       clampedDelay h t1 = Int d1 -> clampedDelay h t2 = Int d2 ->
       ((i < j)%nat <-> d1 < d2)).
Proof.
  intros Hok i j t1 t2 Ht1 Ht2 Hi Hj.
  destruct (organizeBy_groups (taskDelay Clamped h) tl Hok i j t1 t2 Ht1 Ht2 Hi Hj)
    as [Heq Hlt].
  change (taskDelay Clamped h t1) with (clampedDelay h t1) in *.
  change (taskDelay Clamped h t2) with (clampedDelay h t2) in *.
  split; [exact Heq|].
  intros d1 d2 E1 E2. rewrite E1, E2 in Hlt. exact Hlt.
Qed.

(** [src/TaskList.js] groups by the delay as it is: stored tasks share a
    group exactly when [executionTime - creationTime] is the same Number. *)
Lemma Unclamped_groups_by_raw_delay (h : DateHeap) (tl : TaskList) :
  storeOk (tasks tl) ->
  forall i j t1 t2,
    In t1 (obj_values (tasks tl)) -> In t2 (obj_values (tasks tl)) ->
    inGroup (organizeTasks Unclamped h tl) i (getId t1) ->
    inGroup (organizeTasks Unclamped h tl) j (getId t2) ->
    (i = j <->
     Number_sub (getTime h (getExectutionTime t1)) (getTime h (getCreationTime t1)) =
     Number_sub (getTime h (getExectutionTime t2)) (getTime h (getCreationTime t2))).
Proof.
  intros Hok i j t1 t2 Ht1 Ht2 Hi Hj.
  exact (proj1 (organizeBy_groups (taskDelay Unclamped h) tl Hok i j t1 t2
                  Ht1 Ht2 Hi Hj)).
Qed.

Example Clamped_example :
  organizeTasks Clamped sampleDates
    (mkTaskList [("1234567890", storedA); ("aabbccddee", storedB);
                 ("0102030405", storedC)] [])
  = mkTaskList [("1234567890", storedA); ("aabbccddee", storedB);
                ("0102030405", storedC)]
               [["1234567890"; "aabbccddee"]; ["0102030405"]].
Proof. vm_compute. reflexivity. Qed.

(** C2.  In [src/TaskList.js] two tasks that were due 5 ms and 3 ms before
    they were created, so that both clamped delays are 0, end up in two
    groups of the timeline: [organizeTasks] there does not clamp. *)
Theorem C2_unclamped_splits_past_tasks :
  addTasks Unclamped sampleDates emptyTaskList sampleRandom
           [ATask taskA; ATask taskB]
  = Ok (listAB, [(Byte.x01, Byte.x02, Byte.x03, Byte.x04, Byte.x05)], true) /\
  organizeTasks Unclamped sampleDates listAB = listAB /\
  clampedDelay sampleDates storedA = Int 0 /\
  clampedDelay sampleDates storedB = Int 0 /\
  timeline listAB = [[getId storedA]; [getId storedB]].
Proof. vm_compute. repeat split. Qed.

(** ** C3: [Agenda.removeTask] with several ids *)

(** [addTasks(taskA, taskB)] on a new Agenda arms timer 0 for the first
    group and returns the count 2. *)
Lemma agendaAB_added :
  Agenda_addTasks Unclamped sampleHost newAgenda sampleRandom
                  [ATask taskA; ATask taskB]
  = Ok (hostAB, agendaAB, [(Byte.x01, Byte.x02, Byte.x03, Byte.x04, Byte.x05)],
        2%nat).
Proof. vm_compute. reflexivity. Qed.

(** With one id, [removeTask] removes the task. *)
Example removeTask_one_id :
  exists w a,
    Agenda_removeTask Unclamped hostAB agendaAB ["aabbccddee"] = Ok (w, a, 1%nat) /\
    obj_keys (tasks (taskList a)) = ["1234567890"].
Proof. do 2 eexists. vm_compute. split; reflexivity. Qed.

(** C3.  [removeTask] called with the ids of the two stored tasks removes
    neither: [removeTasks] receives the array of ids as its one argument,
    looks up the key ["1234567890,aabbccddee"], finds nothing, and the
    count that comes back is still 2. *)
Theorem C3_removeTask_two_ids_removes_nothing :
  Array_toString ["1234567890"; "aabbccddee"] = "1234567890,aabbccddee" /\
  Agenda_removeTask Unclamped hostAB agendaAB ["1234567890"; "aabbccddee"]
  = Ok (hostAB, agendaAB, 2%nat) /\
  obj_keys (tasks (taskList agendaAB)) = ["1234567890"; "aabbccddee"].
Proof. vm_compute. repeat split. Qed.

(** ** C4: checking the tracker twice *)

Lemma obj_read_own {V} (o : Obj V) (k : string) :
  In k (obj_keys o) -> exists v, obj_read o k = Own v.
Proof.
  intros Hin. unfold obj_read.
  destruct (obj_get o k) as [v|] eqn:G; [eauto|].
  apply obj_get_None in G. contradiction.
Qed.

(** Against the list it was copied from, the tracked list counts as
    unchanged. *)
Lemma trackerChanged_same (ids : list string) : trackerChanged ids ids = false.
Proof.
  unfold trackerChanged. rewrite Nat.eqb_refl.
  apply not_true_is_false. intros H.
  apply existsb_exists in H. destruct H as (x & Hx & Hneg).
  apply negb_true_iff in Hneg.
  apply (proj2 (existsb_eqb_In x ids)) in Hx. congruence.
Qed.

(** The ids that [getNextTaskIds] returns are keys of [#tasks]. *)
Lemma getNextTaskIds_stored tl id :
  timelineOk tl -> In id (getNextTaskIds tl) -> In id (obj_keys (tasks tl)).
Proof.
  intros [_ Hperm] Hin. eapply Permutation_in; [exact Hperm|].
  unfold getNextTaskIds in Hin.
  destruct (timeline tl) as [|g gs]; simpl in *; [contradiction|].
  destruct (0 <? length g)%nat; [|contradiction].
  apply in_or_app. now left.
Qed.

(** On a well-kept list [#setTaskTracker] does not throw. *)
Lemma setTaskTracker_returns w a :
  timelineOk (taskList a) ->
  exists w' a', setTaskTracker w a = Ok (w', a').
Proof.
  intros Hok. unfold setTaskTracker.
  destruct (getNextTaskIds (taskList a)) as [|first rest] eqn:N; [eauto|].
  assert (Hin : In first (obj_keys (tasks (taskList a)))).
  { apply getNextTaskIds_stored; [exact Hok|]. rewrite N. now left. }
  destruct (obj_read_own _ _ Hin) as [t Ht].
  simpl. rewrite Ht. simpl. eauto.
Qed.

(** When [#setTaskTracker] returns, the TaskList is the one it found and
    the tracked ids are what [getNextTaskIds] returns, or the Agenda is
    untouched because there is no next group. *)
Lemma setTaskTracker_tracks w a w' a' :
  setTaskTracker w a = Ok (w', a') ->
  taskList a' = taskList a /\
  (nextTasksIds a' = Some (getNextTaskIds (taskList a)) \/
   getNextTaskIds (taskList a) = [] /\ a' = a).
Proof.
  unfold setTaskTracker.
  destruct (getNextTaskIds (taskList a)) as [|first rest] eqn:N.
  - intros [= <- <-]. auto.
  - destruct (getTasks_id (taskList a) [first]) as [[|t found]| |];
      simpl; try discriminate.
    destruct (setTimeout w (getTimeTillExecution w t)) as [w2 timer].
    intros [= <- <-]. simpl. auto.
Qed.

Lemma checkTaskTracker_returns w a :
  timelineOk (taskList a) ->
  exists w1 a1, checkTaskTracker w a = Ok (w1, a1).
Proof.
  intros Hok. unfold checkTaskTracker.
  destruct (trackerChanged _ _); [|eauto].
  destruct (clearTaskTracker w a) as [wc ac] eqn:Hc.
  apply setTaskTracker_returns.
  unfold clearTaskTracker in Hc.
  destruct (activeTimerId a); injection Hc as <- <-; exact Hok.
Qed.

(** After a run of [#checkTaskTracker] that returned, a further run finds
    nothing to do, on any Agenda and under any state of the host. *)
Lemma checkTaskTracker_second_run w a w1 a1 :
  checkTaskTracker w a = Ok (w1, a1) ->
  forall w2, checkTaskTracker w2 a1 = Ok (w2, a1).
Proof.
  unfold checkTaskTracker at 1.
  destruct (trackerChanged _ _) eqn:C.
  - destruct (clearTaskTracker w a) as [wc ac] eqn:Hc.
    assert (Hac : ac = mkAgenda (taskList a) None None None).
    { unfold clearTaskTracker in Hc. destruct (activeTimerId a); congruence. }
    intros Hset w2.
    destruct (setTaskTracker_tracks _ _ _ _ Hset) as [Htl [Hids|[Hnil ->]]];
      unfold checkTaskTracker.
    + rewrite Htl, Hids, trackerChanged_same. reflexivity.
    + rewrite Hac in *. simpl in *. rewrite Hnil. reflexivity.
  - intros [= <- <-] w2. unfold checkTaskTracker. now rewrite C.
Qed.

(** C4.  On an Agenda whose TaskList is well kept, [#checkTaskTracker]
    returns; and on any Agenda, once a run has returned, a second run
    right after it, whatever the clock and the Dates have become in
    between, changes nothing: the tracked ids, the tracked execution time
    and the timer stay as they are and neither [clearTimeout] nor
    [setTimeout] is called. *)
Theorem C4_checkTaskTracker_idempotent (w : Host) (a : Agenda) :
  (timelineOk (taskList a) ->
   exists w1 a1, checkTaskTracker w a = Ok (w1, a1)) /\
  (forall w1 a1,
     checkTaskTracker w a = Ok (w1, a1) ->
     forall w2, checkTaskTracker w2 a1 = Ok (w2, a1)).
Proof.
  split.
  - apply checkTaskTracker_returns.
  - apply checkTaskTracker_second_run.
Qed.

Lemma C4_witness :
  exists w1 a1,
    checkTaskTracker hostAB agendaAB = Ok (w1, a1) /\
    forall w2, checkTaskTracker w2 a1 = Ok (w2, a1).
Proof.
  destruct (C4_checkTaskTracker_idempotent hostAB agendaAB) as [Hruns Hsecond].
  destruct Hruns as (w1 & a1 & Hrun).
  - split; [split|].
    + simpl. repeat constructor; simpl; intuition discriminate.
    + simpl. repeat constructor.
    + simpl. reflexivity.
  - exists w1, a1. split; [exact Hrun|]. exact (Hsecond w1 a1 Hrun).
Defined.

(** A run that does rearm: the tracked task is removed behind the
    tracker's back, the first run cancels timer 0 and arms timer 2 for the
    other task, the second run does nothing. *)
Example checkTaskTracker_rearms_once :
  let a := withTaskList agendaAB
             (fst (removeTasks Unclamped sampleDates listAB ["1234567890"])) in
  exists w1 a1,
    checkTaskTracker hostAB a = Ok (w1, a1) /\
    timerCalls w1 = [SetTimeout 0 (Int 0); ClearTimeout 0; SetTimeout 2 (Int 0)] /\
    nextTasksIds a1 = Some ["aabbccddee"] /\
    checkTaskTracker w1 a1 = Ok (w1, a1).
Proof. do 2 eexists. vm_compute. repeat split. Qed.

(** ** C5: the range check of [getTasks_timelineIndex] *)

Lemma getTasks_timelineIndex_negative tl i :
  i < 0 -> getTasks_timelineIndex tl (VNumber (NumInteger i)) = Throw RangeError.
Proof.
  intros H. unfold getTasks_timelineIndex.
  now rewrite (proj2 (Z.ltb_lt i 0) H).
Qed.

Lemma getTasks_timelineIndex_beyond tl i :
  Z.of_nat (timelineLength tl) < i ->
  getTasks_timelineIndex tl (VNumber (NumInteger i)) = Throw RangeError.
Proof.
  intros H. unfold getTasks_timelineIndex.
  rewrite (proj2 (Z.ltb_lt _ i) H). now rewrite orb_true_r.
Qed.

(** The index equal to the length of the timeline passes the check, and
    the answer is the empty array. *)
Lemma getTasks_timelineIndex_at_length tl :
  getTasks_timelineIndex tl (VNumber (NumInteger (Z.of_nat (timelineLength tl))))
  = Ok [].
Proof.
  unfold getTasks_timelineIndex.
  rewrite (proj2 (Z.ltb_ge _ 0)) by lia.
  rewrite Z.ltb_irrefl. simpl. rewrite Nat2Z.id.
  unfold timelineLength.
  now rewrite (proj2 (nth_error_None (timeline tl) _)) by lia.
Qed.

Lemma copyTasksOf_stored ts ids :
  (forall id, In id ids -> In id (obj_keys ts)) ->
  exists copies, copyTasksOf ts ids = Ok copies /\ length copies = length ids.
Proof.
  induction ids as [|id ids IH]; intros Hin; simpl.
  - exists []. auto.
  - destruct (obj_read_own ts id) as [t Ht]; [apply Hin; now left|].
    rewrite Ht. destruct IH as (copies & -> & Hlen).
    + intros x Hx. apply Hin. now right.
    + simpl. eexists. split; [reflexivity|]. simpl. now rewrite Hlen.
Qed.

(** Inside the timeline of a well-kept list the call returns one copy per
    id of the group. *)
Lemma getTasks_timelineIndex_inside tl i ids :
  timelineOk tl ->
  nth_error (timeline tl) i = Some ids ->
  exists copies,
    getTasks_timelineIndex tl (VNumber (NumInteger (Z.of_nat i))) = Ok copies /\
    length copies = length ids.
Proof.
  intros [_ Hperm] Hn. unfold getTasks_timelineIndex.
  assert (Hlt : (i < length (timeline tl))%nat).
  { apply nth_error_Some. congruence. }
  rewrite (proj2 (Z.ltb_ge _ 0)) by lia.
  unfold timelineLength. rewrite (proj2 (Z.ltb_ge _ _)) by lia.
  simpl. rewrite Nat2Z.id, Hn.
  apply copyTasksOf_stored. intros id Hid.
  eapply Permutation_in; [exact Hperm|].
  apply in_concat. exists ids. split; [|exact Hid].
  eapply nth_error_In; eauto.
Qed.

(** C5.  The index 2 on a timeline of length 2, and the index 0 on the
    empty timeline, are not below the timeline length, and yet the call
    returns an empty array where a RangeError is due: the check reads
    [index > this.timelineLength()]. *)
Theorem C5_index_equal_to_length_is_accepted :
  timelineLength listAB = 2%nat /\
  getTasks_timelineIndex listAB (VNumber (NumInteger 2)) = Ok [] /\
  getTasks_timelineIndex listAB (VNumber (NumInteger 3)) = Throw RangeError /\
  timelineLength emptyTaskList = 0%nat /\
  getTasks_timelineIndex emptyTaskList (VNumber (NumInteger 0)) = Ok [].
Proof. vm_compute. repeat split. Qed.

(** ** C6: what a copy shares with the stored task *)

(** C6.  A copy handed out by [getTasks_id] holds the very Date object of
    the stored task.  Setting the time of the copy's execution Date to 0
    moves the stored task as well: the same query, asked again, answers
    with a task that is due at 0 and no longer at 995.  The copy that
    [getTaskList] makes of the whole list shares its Dates in the same
    way. *)
Theorem C6_copy_shares_dates :
  exists copy,
    getTasks_id listAB ["1234567890"] = Ok [copy] /\
    getTime sampleDates (getExectutionTime copy) = Int 995 /\
    let dates' := setTime sampleDates (getExectutionTime copy) (Int 0) in
    exists again,
      getTasks_id listAB ["1234567890"] = Ok [again] /\
      getTime dates' (getExectutionTime again) = Int 0 /\
      getTasks_id (getTaskList agendaAB) ["1234567890"] = Ok [again].
Proof.
  eexists. split; [vm_compute; reflexivity|].
  split; [reflexivity|]. simpl.
  eexists. split; [vm_compute; reflexivity|].
  split; reflexivity.
Qed.

(** ** C7: [getNextExectutionTime] with nothing tracked *)

(** With a tracked group the method returns a new Date with the time value
    of the tracked Date. *)
Lemma getNextExectutionTime_tracked w a r :
  nextExecutionTime a = Some r ->
  exists w' r',
    getNextExectutionTime w a = (w', VDate r') /\
    getTime (dates w') r' = TimeClip (getTime (dates w) r).
Proof.
  intros H. unfold getNextExectutionTime, new_Date_of, new_Date. rewrite H.
  do 2 eexists. split; [reflexivity|]. simpl. unfold getTime.
  rewrite app_nth2 by lia. now rewrite Nat.sub_diag.
Qed.

(** With nothing tracked the method still returns a Date: the one for
    time value 0. *)
Lemma getNextExectutionTime_untracked w a :
  nextExecutionTime a = None ->
  exists w' r',
    getNextExectutionTime w a = (w', VDate r') /\
    getTime (dates w') r' = Int 0.
Proof.
  intros H. unfold getNextExectutionTime, new_Date_of, new_Date. rewrite H.
  do 2 eexists. split; [reflexivity|]. simpl. unfold getTime.
  rewrite app_nth2 by lia. now rewrite Nat.sub_diag.
Qed.

(** C7.  On a new Agenda, and on one whose tracker was just cleared,
    [getNextExectutionTime] returns neither null nor undefined but a Date
    object, the one of 1 January 1970: [new Date(null)]. *)
Theorem C7_untracked_time_is_the_epoch :
  nextExecutionTime newAgenda = None /\
  getNextExectutionTime sampleHost newAgenda
  = (mkHost (sampleDates ++ [Int 0]) 1000 [], VDate 6%nat) /\
  getTime (sampleDates ++ [Int 0]) 6%nat = Int 0 /\
  getNextExectutionTime sampleHost (snd (clearTaskTracker hostAB agendaAB))
  = (mkHost (sampleDates ++ [Int 0]) 1000 [], VDate 6%nat).
Proof. vm_compute. repeat split. Qed.

(** ** C8: what the two constructors reject *)

(** The delay -5 is no non-negative integer and the function is callable,
    and the constructor returns a task all the same. *)
Lemma C8_negative_delay_is_accepted :
  ~ (rejects (createTaskWithExecutionDelay pastHost (VNumber (NumInteger (-5)))
                                           (VFunction 0%nat) [])
     <-> nonNegativeInteger (VNumber (NumInteger (-5))) = false \/
         instanceof_Function (VFunction 0%nat) = false).
Proof.
  intros [_ H]. assert (R := H (or_introl eq_refl)). discriminate R.
Qed.

(** C8 (amended).  [createTaskWithExecutionTime] throws its TypeError
    exactly when the time is no Date or the function is no Function;
    [createTaskWithExecutionDelay] throws it exactly when the delay is no
    integer, of either sign, or the function is no Function; in every other
    case each of them returns a task. *)
Theorem C8_constructors_reject_by_type
    (w : Host) (first fn : JSValue) (args : list JSValue) :
  (rejects (createTaskWithExecutionTime w first fn args) <->
   instanceof_Date first = false \/ instanceof_Function fn = false) /\
  (rejects (createTaskWithExecutionDelay w first fn args) <->
   Number_isInteger first = false \/ instanceof_Function fn = false) /\
  (instanceof_Date first = true -> instanceof_Function fn = true ->
   exists w' t, createTaskWithExecutionTime w first fn args = Ok (w', t)) /\
  (Number_isInteger first = true -> instanceof_Function fn = true ->
   exists w' t, createTaskWithExecutionDelay w first fn args = Ok (w', t)).
Proof.
  unfold rejects, createTaskWithExecutionTime, createTaskWithExecutionDelay.
  repeat split.
  - destruct first; auto; destruct fn; simpl; auto; discriminate.
  - intros [H|H].
    + destruct first; try reflexivity; discriminate H.
    + destruct first; try reflexivity. destruct fn; try reflexivity; discriminate H.
  - destruct first as [| | |[z|]| | | |]; auto; destruct fn; simpl; auto; discriminate.
  - intros [H|H].
    + destruct first as [| | |[z|]| | | |]; try reflexivity; discriminate H.
    + destruct first as [| | |[z|]| | | |]; try reflexivity.
      destruct fn; try reflexivity; discriminate H.
  - intros H1 H2. destruct first; try discriminate H1.
    destruct fn; try discriminate H2. simpl. eauto.
  - intros H1 H2. destruct first as [| | |[z|]| | | |]; try discriminate H1.
    destruct fn; try discriminate H2. simpl. eauto.
Qed.

Lemma C8_witness :
  exists w' t,
    createTaskWithExecutionDelay pastHost (VNumber (NumInteger (-5)))
                                 (VFunction 0%nat) [] = Ok (w', t).
Proof.
  destruct (C8_constructors_reject_by_type
              pastHost (VNumber (NumInteger (-5))) (VFunction 0%nat) [])
    as (_ & _ & _ & H).
  apply H; reflexivity.
Defined.

(** ** C9: searching by name among tasks without a name *)

(** The search throws as soon as it meets a task whose name is null,
    whatever the search string and the mode. *)
Lemma findTasksByName_loop_null elements searchVal caseSensitive :
  forall foundTasks,
    (exists t, In t elements /\ getName t = None) ->
    findTasksByName_loop elements searchVal caseSensitive foundTasks
    = Throw TypeError.
Proof.
  induction elements as [|e rest IH]; intros foundTasks (t & Hin & Hnull).
  - contradiction.
  - simpl. destruct (getName e) as [name|] eqn:N; [|reflexivity].
    apply IH. exists t. split; [|exact Hnull].
    destruct Hin as [->|Hin]; [congruence|exact Hin].
Qed.

Lemma findTasksByName_null rev h tl taskName caseSensitive :
  (exists t, In t (obj_values (tasks tl)) /\ getName t = None) ->
  findTasksByName rev h tl taskName caseSensitive = Throw TypeError.
Proof.
  intros H. unfold findTasksByName.
  now rewrite findTasksByName_loop_null.
Qed.

(** A search among named tasks, for comparison. *)
Example findTasksByName_named :
  let named := mkTaskList
    [("1234567890", setName storedA (Some "Backup"))] [["1234567890"]] in
  findTasksByName Clamped sampleDates named "back" false = Ok (mkTaskList (tasks named) []) /\
  findTasksByName Clamped sampleDates named "back" true = Ok (mkTaskList [] []).
Proof. vm_compute. split; reflexivity. Qed.

(** C9.  [taskA] and [taskB] never had [setName] called, so their name is
    still null; on the list that holds them [findTasksByName] throws a
    TypeError in the case-sensitive and in the case-insensitive mode, in
    both copies of [TaskList.js]. *)
Theorem C9_search_throws_on_unnamed_task :
  getName storedA = None /\
  findTasksByName Unclamped sampleDates listAB "a" true = Throw TypeError /\
  findTasksByName Unclamped sampleDates listAB "a" false = Throw TypeError /\
  findTasksByName Clamped sampleDates listAB "a" true = Throw TypeError /\
  findTasksByName Clamped sampleDates listAB "a" false = Throw TypeError.
Proof. vm_compute. repeat split. Qed.

(** ** Supplementary facts *)

(** Below 2^53 an integer is its own double. *)
Lemma to_double_exact (z : Z) : Z.abs z < 2 ^ 53 -> to_double z = z.
Proof.
  intros H. unfold to_double.
  assert (Hl : Z.log2 (Z.abs z) < 53).
  { destruct (Z.eq_dec (Z.abs z) 0) as [E|E]; [rewrite E; simpl; lia|].
    apply Z.log2_lt_pow2; lia. }
  now rewrite (proj2 (Z.leb_le _ 0)) by lia.
Qed.

Lemma obj_set_fresh_keys {V} (o : Obj V) k (v : V) x :
  obj_get o k = None ->
  (In x (obj_keys (obj_set o k v)) <-> x = k \/ In x (obj_keys o)).
Proof.
  intros H. pose proof (obj_set_fresh_perm o k v H) as Hp.
  apply (Permutation_map fst) in Hp. simpl in Hp. unfold obj_keys. split.
  - intros Hx. apply (Permutation_in _ Hp) in Hx. destruct Hx; auto.
  - intros Hx. apply (Permutation_in _ (Permutation_sym Hp)).
    destruct Hx; [left|right]; auto.
Qed.

(** [addTasks] returns when the random source holds, for each argument, a
    buffer whose hex string is new: here, buffers with pairwise different
    hex strings that are no keys yet, at least as many as arguments. *)
Lemma addTasks_loop_returns newTasks :
  forall ts rnd changed,
    NoDup (map toString_hex rnd) ->
    (forall b, In b rnd -> ~ In (toString_hex b) (obj_keys ts)) ->
    (length newTasks <= length rnd)%nat ->
    exists ts' rnd' changed',
      addTasks_loop ts rnd newTasks changed = Ok (ts', rnd', changed').
Proof.
  induction newTasks as [|[newTask|v] rest IH]; intros ts rnd changed Hnd Hfree Hlen.
  - simpl. eauto.
  - destruct rnd as [|b rnd]; [simpl in Hlen; lia|].
    simpl. unfold addTask_prv. simpl.
    assert (Hb : existsb (String.eqb (toString_hex b)) (obj_keys ts) = false).
    { apply not_true_is_false. intros E. apply existsb_eqb_In in E.
      apply (Hfree b); [now left|exact E]. }
    rewrite Hb. simpl.
    simpl in Hnd. inversion Hnd as [|? ? Hnotin Hnd']; subst.
    apply IH; [exact Hnd'| |simpl in Hlen; lia].
    intros b' Hb' Hin.
    apply obj_set_fresh_keys in Hin.
    + destruct Hin as [E|Hin].
      * apply Hnotin. rewrite <- E. now apply in_map.
      * apply (Hfree b'); [now right|exact Hin].
    + apply obj_get_None. apply Hfree. now left.
  - simpl. apply IH; auto. simpl in Hlen. lia.
Qed.

(** [addTasks] returns: the loop of [#generateUniqueID] ends whenever the
    random source supplies at least as many buffers as there are arguments,
    with pairwise different hex strings none of which is a key yet. *)
Lemma addTasks_returns rev h tl rnd newTasks :
  NoDup (map toString_hex rnd) ->
  (forall b, In b rnd -> ~ In (toString_hex b) (obj_keys (tasks tl))) ->
  (length newTasks <= length rnd)%nat ->
  exists tl' rnd' changed,
    addTasks rev h tl rnd newTasks = Ok (tl', rnd', changed).
Proof.
  intros Hnd Hfree Hlen. unfold addTasks.
  destruct (addTasks_loop_returns newTasks (tasks tl) rnd false Hnd Hfree Hlen)
    as (ts' & rnd' & c & ->).
  simpl. destruct c; eauto.
Qed.

(** [removeTask(...ids)] does what [removeTask(ids.join(","))] does. *)
Lemma Agenda_removeTask_joins rev w a taskIds :
  Agenda_removeTask rev w a taskIds =
  Agenda_removeTask rev w a [Array_toString taskIds].
Proof. reflexivity. Qed.

(** The tracker methods leave the TaskList alone. *)
Lemma checkTaskTracker_taskList w a w' a' :
  checkTaskTracker w a = Ok (w', a') -> taskList a' = taskList a.
Proof.
  unfold checkTaskTracker.
  destruct (trackerChanged _ _); [|now intros [= <- <-]].
  destruct (clearTaskTracker w a) as [wc ac] eqn:Hc.
  assert (Hac : taskList ac = taskList a).
  { unfold clearTaskTracker in Hc. destruct (activeTimerId a);
      injection Hc as <- <-; reflexivity. }
  unfold setTaskTracker.
  destruct (getNextTaskIds (taskList ac)) as [|first rest];
    [now intros [= <- <-]|].
  destruct (getTasks_id (taskList ac) [first]) as [[|t found]| |];
    simpl; try discriminate.
  destruct (setTimeout wc (getTimeTillExecution wc t)) as [w2 timer].
  now intros [= <- <-].
Qed.

(** The TaskList of an Agenda stays well kept under [addTasks] and
    [removeTask]. *)
Lemma Agenda_addTasks_timelineOk rev w a rnd newTasks w' a' rnd' n :
  timelineOk (taskList a) ->
  Agenda_addTasks rev w a rnd newTasks = Ok (w', a', rnd', n) ->
  timelineOk (taskList a').
Proof.
  intros Hok. unfold Agenda_addTasks.
  destruct (addTasks rev (dates w) (taskList a) rnd newTasks)
    as [[[tl rnd1] c]| |] eqn:A; simpl; try discriminate.
  apply (addTasks_timelineOk _ _ _ _ _ _ _ _ Hok) in A.
  destruct c.
  - destruct (checkTaskTracker w (withTaskList a tl)) as [[w2 a2]| |] eqn:C;
      simpl; try discriminate.
    intros [= <- <- <- <-].
    now rewrite (checkTaskTracker_taskList _ _ _ _ C).
  - now intros [= <- <- <- <-].
Qed.

Lemma Agenda_removeTask_timelineOk rev w a taskIds w' a' n :
  timelineOk (taskList a) ->
  Agenda_removeTask rev w a taskIds = Ok (w', a', n) ->
  timelineOk (taskList a').
Proof.
  intros Hok. unfold Agenda_removeTask.
  destruct (removeTasks rev (dates w) (taskList a) [Array_toString taskIds])
    as [tl c] eqn:R.
  apply (removeTasks_timelineOk _ _ _ _ _ _ Hok) in R.
  destruct c.
  - destruct (checkTaskTracker w (withTaskList a tl)) as [[w2 a2]| |] eqn:C;
      simpl; try discriminate.
    intros [= <- <- <-].
    now rewrite (checkTaskTracker_taskList _ _ _ _ C).
  - now intros [= <- <- <-].
Qed.

(** ** [Agenda.removeTask] with several ids, in general *)

Lemma hasComma_append (a b : string) :
  hasComma (a ++ b) = hasComma a || hasComma b.
Proof.
  induction a as [|c a IH]; simpl; [reflexivity|].
  now rewrite IH, orb_assoc.
Qed.

(** An array of two or more strings turns into a string with a comma. *)
Lemma hasComma_Array_toString (id1 id2 : string) (ids : list string) :
  hasComma (Array_toString (id1 :: id2 :: ids)) = true.
Proof.
  unfold Array_toString.
  change (String.concat "," (id1 :: id2 :: ids))
    with (id1 ++ "," ++ String.concat "," (id2 :: ids))%string.
  rewrite hasComma_append. simpl. apply orb_true_r.
Qed.

Lemma hex_digit_no_comma (n : N) : Ascii.eqb (hex_digit n) ","%char = false.
Proof.
  unfold hex_digit. generalize (N.to_nat n). intros m.
  do 16 (destruct m as [|m]; [reflexivity|]).
  simpl. now destruct m.
Qed.

(** The ids that the TaskList hands out hold no comma. *)
Lemma toString_hex_no_comma (b : Bytes5) : hasComma (toString_hex b) = false.
Proof.
  destruct b as [[[[b0 b1] b2] b3] b4]. unfold toString_hex, hex_byte.
  simpl. now rewrite !hex_digit_no_comma.
Qed.

Lemma generateUniqueID_hex keys rnd id rnd' :
  generateUniqueID keys rnd = Ok (id, rnd') -> exists b, id = toString_hex b.
Proof.
  revert id rnd'. induction rnd as [|b rnd IH]; simpl; intros id rnd'; [discriminate|].
  destruct (existsb (String.eqb (toString_hex b)) keys).
  - apply IH.
  - intros [= <- <-]. eauto.
Qed.

Lemma addTasks_loop_commaFree newTasks :
  forall ts rnd changed ts' rnd' changed',
    keysCommaFree ts ->
    addTasks_loop ts rnd newTasks changed = Ok (ts', rnd', changed') ->
    keysCommaFree ts'.
Proof.
  induction newTasks as [|[newTask|v] rest IH];
    intros ts rnd changed ts' rnd' changed' Hfree; simpl.
  - now intros [= <- <- <-].
  - unfold addTask_prv.
    destruct (generateUniqueID (obj_keys ts) rnd) as [[newId rnd1]| |] eqn:G;
      simpl; try discriminate.
    apply IH. unfold keysCommaFree in *. apply Forall_forall. intros k Hk.
    apply obj_set_fresh_keys in Hk.
    + destruct Hk as [->|Hk].
      * destruct (generateUniqueID_hex _ _ _ _ G) as [b ->].
        apply toString_hex_no_comma.
      * rewrite Forall_forall in Hfree. now apply Hfree.
    + apply obj_get_None. eapply generateUniqueID_fresh; eauto.
  - now apply IH.
Qed.

Lemma removeTasks_loop_commaFree taskIds :
  forall ts changed ts' changed',
    keysCommaFree ts ->
    removeTasks_loop ts taskIds changed = (ts', changed') ->
    keysCommaFree ts'.
Proof.
  induction taskIds as [|taskId rest IH]; intros ts changed ts' changed' Hfree; simpl.
  - now intros [= <- <-].
  - assert (Hdel : keysCommaFree (obj_delete ts taskId)).
    { unfold keysCommaFree in *. apply Forall_forall. intros k Hk.
      rewrite Forall_forall in Hfree. apply Hfree.
      exact (obj_delete_keys_incl ts taskId k Hk). }
    destruct (obj_read ts taskId); eauto.
Qed.

(** Every TaskList the public methods produce has comma-free keys. *)
Lemma reachable_commaFree rev tl : reachable rev tl -> keysCommaFree (tasks tl).
Proof.
  induction 1 as [|h rnd args tl rnd' Hnew
                  |h tl rnd newTasks tl' rnd' changed Hr IH Hadd
                  |h tl taskIds tl' changed Hr IH Hrem
                  |h tl Hr IH].
  - constructor.
  - unfold newTaskList in Hnew.
    destruct (addTasks_loop [] rnd args false) as [[[ts rnd1] c]| |] eqn:L;
      simpl in Hnew; try discriminate.
    assert (Hts : keysCommaFree ts).
    { eapply addTasks_loop_commaFree; [|exact L]. constructor. }
    destruct (0 <? taskCount (mkTaskList ts []))%nat; injection Hnew as <- <-.
    + unfold organizeTasks. now rewrite organizeBy_tasks.
    + exact Hts.
  - unfold addTasks in Hadd.
    destruct (addTasks_loop (tasks tl) rnd newTasks false)
      as [[[ts rnd1] c]| |] eqn:L; simpl in Hadd; try discriminate.
    assert (Hts : keysCommaFree ts).
    { eapply addTasks_loop_commaFree; [exact IH|exact L]. }
    destruct c; injection Hadd as <- <- <-.
    + unfold organizeTasks. now rewrite organizeBy_tasks.
    + exact Hts.
  - unfold removeTasks in Hrem.
    destruct (removeTasks_loop (tasks tl) taskIds false) as [ts c] eqn:L.
    assert (Hts : keysCommaFree ts).
    { eapply removeTasks_loop_commaFree; [exact IH|exact L]. }
    destruct c; injection Hrem as <- <-.
    + unfold organizeTasks. now rewrite organizeBy_tasks.
    + exact Hts.
  - unfold organizeTasks. now rewrite organizeBy_tasks.
Qed.

(** A key with a comma reads as undefined in such a dictionary. *)
Lemma obj_read_comma {V} (o : Obj V) (k : string) :
  keysCommaFree o -> hasComma k = true -> obj_read o k = Undefined.
Proof.
  intros Hfree Hk. unfold obj_read.
  destruct (obj_get o k) as [v|] eqn:G.
  - apply obj_get_In in G. apply (in_map fst) in G. simpl in G.
    unfold keysCommaFree in Hfree. rewrite Forall_forall in Hfree.
    rewrite (Hfree _ G) in Hk. discriminate.
  - destruct (existsb (String.eqb k) Object_prototype_names) eqn:E; [|reflexivity].
    apply existsb_exists in E. destruct E as (name & Hname & Heq).
    apply String.eqb_eq in Heq. subst name.
    assert (Hall : forallb (fun n => negb (hasComma n)) Object_prototype_names = true)
      by reflexivity.
    rewrite forallb_forall in Hall. specialize (Hall _ Hname).
    rewrite Hk in Hall. discriminate.
Qed.

(** Whatever the Agenda holds, [removeTask] with two or more ids removes
    nothing, calls no timer function and returns the count as it was. *)
Lemma Agenda_removeTask_several rev w a id1 id2 ids :
  keysCommaFree (tasks (taskList a)) ->
  Agenda_removeTask rev w a (id1 :: id2 :: ids) = Ok (w, a, getTaskCount a).
Proof.
  intros Hfree. unfold Agenda_removeTask, removeTasks.
  cbn [removeTasks_loop].
  rewrite (obj_read_comma _ _ Hfree (hasComma_Array_toString id1 id2 ids)).
  destruct a as [[ts tline] mine timer time]. reflexivity.
Qed.

(** ** What [getCopy] shares, in general *)

(** The copy refers to the two Date objects of the original. *)
Lemma getCopy_shares_dates (t : Task) :
  getCreationTime (getCopy t) = getCreationTime t /\
  getExectutionTime (getCopy t) = getExectutionTime t.
Proof. split; reflexivity. Qed.

Lemma heap_store_read (h : DateHeap) (r : DateRef) (v : Number) :
  (r < length h)%nat -> nth r (heap_store h r v) NaN = v.
Proof.
  revert r. induction h as [|x h IH]; intros r Hr; simpl in Hr; [lia|].
  destruct r as [|r]; simpl; [reflexivity|]. apply IH. lia.
Qed.

(** So a change of the copy's execution Date is a change of the stored
    task's execution time. *)
Lemma setTime_reaches_original (h : DateHeap) (t : Task) (z : Z) :
  (getExectutionTime t < length h)%nat ->
  getTime (setTime h (getExectutionTime (getCopy t)) (Int z))
          (getExectutionTime t)
  = TimeClip (Int z).
Proof.
  intros Hr. exact (heap_store_read h (getExectutionTime t) _ Hr).
Qed.

(** * Further properties of the code *)

(** ** Reading a dictionary after a write or a delete *)

Lemma obj_get_replace {V} (o : Obj V) k (v : V) k' :
  obj_get (obj_replace o k v) k' =
  if String.eqb k k' then option_map (fun _ => v) (obj_get o k') else obj_get o k'.
Proof.
  induction o as [|[k0 v0] o IH]; simpl.
  - now destruct (String.eqb k k').
  - destruct (String.eqb k0 k) eqn:E0; simpl.
    + apply String.eqb_eq in E0. subst k0.
      destruct (String.eqb k k'); reflexivity.
    + destruct (String.eqb k0 k') eqn:E1.
      * apply String.eqb_eq in E1. subst k0.
        now rewrite String.eqb_sym, E0.
      * exact IH.
Qed.

Lemma obj_get_insert_index {V} (o : Obj V) n k (v : V) k' :
  obj_get o k = None ->
  obj_get (obj_insert_index o n k v) k' =
  if String.eqb k k' then Some v else obj_get o k'.
Proof.
  induction o as [|[k0 v0] o IH]; simpl; intros Hk.
  - reflexivity.
  - destruct (String.eqb k0 k) eqn:E0; [discriminate|].
    destruct (array_index k0) as [m|]; [destruct (m <? n)|]; simpl;
      try reflexivity.
    rewrite (IH Hk).
    destruct (String.eqb k0 k') eqn:E1; [|reflexivity].
    apply String.eqb_eq in E1. subst k0.
    now rewrite String.eqb_sym, E0.
Qed.

Lemma obj_get_app {V} (o1 o2 : Obj V) k :
  obj_get (o1 ++ o2) k =
  match obj_get o1 k with Some v => Some v | None => obj_get o2 k end.
Proof.
  induction o1 as [|[k0 v0] o1 IH]; simpl; [reflexivity|].
  now destruct (String.eqb k0 k).
Qed.

(** What [o[k] = v] changes: the key [k] reads as [v], every other key as
    before. *)
Lemma obj_get_set {V} (o : Obj V) k (v : V) k' :
  obj_get (obj_set o k v) k' =
  if String.eqb k k' then Some v else obj_get o k'.
Proof.
  unfold obj_set. destruct (obj_get o k) as [v0|] eqn:G.
  - rewrite obj_get_replace.
    destruct (String.eqb k k') eqn:E; [|reflexivity].
    apply String.eqb_eq in E. subst k'. now rewrite G.
  - destruct (array_index k) as [n|].
    + now apply obj_get_insert_index.
    + rewrite obj_get_app. simpl.
      destruct (String.eqb k k') eqn:E.
      * apply String.eqb_eq in E. subst k'. now rewrite G.
      * now destruct (obj_get o k').
Qed.

Lemma obj_replace_keys {V} (o : Obj V) k (v : V) :
  obj_keys (obj_replace o k v) = obj_keys o.
Proof.
  induction o as [|[k0 v0] o IH]; simpl; [reflexivity|].
  destruct (String.eqb k0 k); simpl; [reflexivity|]. now f_equal.
Qed.

Lemma obj_set_NoDup {V} (o : Obj V) k (v : V) :
  NoDup (obj_keys o) -> NoDup (obj_keys (obj_set o k v)).
Proof.
  intros Hnd. destruct (obj_get o k) as [v0|] eqn:G.
  - unfold obj_set. rewrite G. now rewrite obj_replace_keys.
  - eapply Permutation_NoDup.
    + symmetry. unfold obj_keys. apply Permutation_map.
      now apply obj_set_fresh_perm.
    + simpl. constructor; [now apply obj_get_None|exact Hnd].
Qed.

Lemma obj_get_delete {V} (o : Obj V) k k' :
  NoDup (obj_keys o) ->
  obj_get (obj_delete o k) k' = if String.eqb k k' then None else obj_get o k'.
Proof.
  induction o as [|[k0 v0] o IH]; simpl; intros Hnd.
  - now destruct (String.eqb k k').
  - inversion Hnd as [|? ? Hnotin Hnd']; subst.
    destruct (String.eqb k0 k) eqn:E0.
    + apply String.eqb_eq in E0. subst k0.
      destruct (String.eqb k k') eqn:E; [|reflexivity].
      apply String.eqb_eq in E. subst k'. now apply obj_get_None.
    + simpl. destruct (String.eqb k0 k') eqn:E1.
      * apply String.eqb_eq in E1. subst k0.
        now rewrite String.eqb_sym, E0.
      * now apply IH.
Qed.

Lemma obj_delete_keys_filter {V} (o : Obj V) k :
  NoDup (obj_keys o) ->
  obj_keys (obj_delete o k) = filter (fun x => negb (String.eqb x k)) (obj_keys o).
Proof.
  induction o as [|[k0 v0] o IH]; simpl; intros Hnd; [reflexivity|].
  inversion Hnd as [|? ? Hnotin Hnd']; subst.
  destruct (String.eqb k0 k) eqn:E0; simpl.
  - apply String.eqb_eq in E0. subst k0.
    symmetry. apply forallb_filter_id. apply forallb_forall. intros x Hx.
    apply negb_true_iff. apply String.eqb_neq. intros ->. contradiction.
  - f_equal. now apply IH.
Qed.

(** Deleting the key that was just added gives the dictionary back. *)
Lemma obj_delete_set_fresh {V} (o : Obj V) k (v : V) :
  obj_get o k = None -> obj_delete (obj_set o k v) k = o.
Proof.
  intros G. unfold obj_set. rewrite G.
  destruct (array_index k) as [n|].
  - induction o as [|[k0 v0] o IH]; simpl.
    + now rewrite String.eqb_refl.
    + simpl in G. destruct (String.eqb k0 k) eqn:E0; [discriminate|].
      destruct (array_index k0) as [m|]; [destruct (m <? n)|]; simpl;
        rewrite ?String.eqb_refl, ?E0; try reflexivity.
      now rewrite (IH G).
  - induction o as [|[k0 v0] o IH]; simpl.
    + now rewrite String.eqb_refl.
    + simpl in G. destruct (String.eqb k0 k) eqn:E0; [discriminate|].
      now rewrite (IH G).
Qed.

(** ** [removeTasks] *)

Lemma removeTasks_loop_store taskIds :
  forall ts changed,
    fst (removeTasks_loop ts taskIds changed) = fold_left obj_delete taskIds ts.
Proof.
  induction taskIds as [|taskId rest IH]; intros ts changed; simpl; [reflexivity|].
  unfold obj_read. destruct (obj_get ts taskId) as [t|] eqn:G; [apply IH|].
  rewrite (obj_delete_absent ts taskId G).
  destruct (existsb (String.eqb taskId) Object_prototype_names); apply IH.
Qed.

Lemma fold_delete_NoDup {V} (taskIds : list string) :
  forall o : Obj V,
    NoDup (obj_keys o) -> NoDup (obj_keys (fold_left obj_delete taskIds o)).
Proof.
  induction taskIds as [|taskId rest IH]; intros o Hnd; simpl; [exact Hnd|].
  apply IH. now apply obj_delete_NoDup.
Qed.

Lemma fold_delete_get {V} (taskIds : list string) :
  forall (o : Obj V) k,
    NoDup (obj_keys o) ->
    obj_get (fold_left obj_delete taskIds o) k =
    if isOneOf taskIds k then None else obj_get o k.
Proof.
  unfold isOneOf.
  induction taskIds as [|taskId rest IH]; intros o k Hnd; simpl; [reflexivity|].
  rewrite IH by now apply obj_delete_NoDup.
  rewrite obj_get_delete by exact Hnd.
  rewrite (String.eqb_sym k taskId).
  destruct (String.eqb taskId k); simpl; [|reflexivity].
  now destruct (existsb (String.eqb k) rest).
Qed.

Lemma filter_twice {A} (f g : A -> bool) (l : list A) :
  filter f (filter g l) = filter (fun x => g x && f x) l.
Proof.
  induction l as [|x l IH]; simpl; [reflexivity|].
  destruct (g x); simpl; [|exact IH].
  destruct (f x); now rewrite IH.
Qed.

Lemma fold_delete_keys {V} (taskIds : list string) :
  forall o : Obj V,
    NoDup (obj_keys o) ->
    obj_keys (fold_left obj_delete taskIds o) =
    filter (fun k => negb (isOneOf taskIds k)) (obj_keys o).
Proof.
  unfold isOneOf.
  induction taskIds as [|taskId rest IH]; intros o Hnd; simpl.
  - symmetry. apply forallb_filter_id. now apply forallb_forall.
  - rewrite IH by now apply obj_delete_NoDup.
    rewrite obj_delete_keys_filter by exact Hnd.
    rewrite filter_twice. apply filter_ext. intros k.
    now rewrite negb_orb.
Qed.

Lemma removeTasks_tasks rev h tl taskIds :
  tasks (fst (removeTasks rev h tl taskIds)) =
  fold_left obj_delete taskIds (tasks tl).
Proof.
  unfold removeTasks.
  pose proof (removeTasks_loop_store taskIds (tasks tl) false) as Hs.
  destruct (removeTasks_loop (tasks tl) taskIds false) as [ts c]. simpl in Hs.
  destruct c; simpl; [|exact Hs].
  unfold organizeTasks. rewrite organizeBy_tasks. exact Hs.
Qed.

Lemma removeTasks_content rev h (tl : TaskList) (taskIds : list string) :
  NoDup (obj_keys (tasks tl)) ->
  obj_keys (tasks (fst (removeTasks rev h tl taskIds))) =
  filter (fun k => negb (isOneOf taskIds k)) (obj_keys (tasks tl)) /\
  forall k,
    obj_get (tasks (fst (removeTasks rev h tl taskIds))) k =
    if isOneOf taskIds k then None else obj_get (tasks tl) k.
Proof.
  intros Hnd. rewrite removeTasks_tasks. split.
  - now apply fold_delete_keys.
  - intros k. now apply fold_delete_get.
Qed.

(** [removeTasks] removes exactly the given ids: what is left are the other
    keys, in the order they had, each with the task it had. *)
Theorem removeTasks_removes_exactly rev h (tl : TaskList) (taskIds : list string) :
  NoDup (obj_keys (tasks tl)) ->
  obj_keys (tasks (fst (removeTasks rev h tl taskIds))) =
  filter (fun k => negb (isOneOf taskIds k)) (obj_keys (tasks tl)) /\
  forall k,
    obj_get (tasks (fst (removeTasks rev h tl taskIds))) k =
    if isOneOf taskIds k then None else obj_get (tasks tl) k.
Proof.
  intros Hnd. rewrite removeTasks_tasks. split.
  - now apply fold_delete_keys.
  - intros k. now apply fold_delete_get.
Qed.

Lemma removeTasks_removes_exactly_witness :
  obj_keys (tasks (fst (removeTasks Unclamped sampleDates listAB ["1234567890"]))) =
  filter (fun k => negb (isOneOf ["1234567890"] k)) (obj_keys (tasks listAB)) /\
  forall k,
    obj_get (tasks (fst (removeTasks Unclamped sampleDates listAB ["1234567890"]))) k =
    if isOneOf ["1234567890"] k then None else obj_get (tasks listAB) k.
Proof.
  apply (removeTasks_removes_exactly Unclamped sampleDates listAB ["1234567890"]).
  simpl. repeat constructor; simpl; intuition discriminate.
Defined.

Lemma removeTasks_loop_true taskIds :
  forall ts, snd (removeTasks_loop ts taskIds true) = true.
Proof.
  induction taskIds as [|taskId rest IH]; intros ts; simpl; [reflexivity|].
  destruct (obj_read ts taskId); apply IH.
Qed.

Lemma obj_read_undefined {V} (o : Obj V) k :
  obj_read o k = Undefined <->
  isOneOf (obj_keys o) k = false /\ isOneOf Object_prototype_names k = false.
Proof.
  unfold obj_read, isOneOf. destruct (obj_get o k) as [v|] eqn:G.
  - split; [discriminate|]. intros [E _].
    apply obj_get_In in G. apply (in_map fst) in G. simpl in G.
    rewrite (proj2 (existsb_eqb_In k (obj_keys o)) G) in E. discriminate.
  - apply obj_get_None in G.
    rewrite (not_true_is_false _
               (fun E => G (proj1 (existsb_eqb_In k (obj_keys o)) E))).
    destruct (existsb (String.eqb k) Object_prototype_names);
      split; try discriminate; auto.
    intros [_ E]. discriminate.
Qed.

Lemma removeTasks_loop_flag taskIds :
  forall ts changed,
    snd (removeTasks_loop ts taskIds changed) =
    changed ||
    existsb (fun id => isOneOf (obj_keys ts) id ||
                       isOneOf Object_prototype_names id) taskIds.
Proof.
  induction taskIds as [|taskId rest IH]; intros ts changed;
    cbn [removeTasks_loop existsb].
  - now rewrite orb_false_r.
  - destruct (obj_read ts taskId) eqn:R.
    + rewrite removeTasks_loop_true.
      destruct (isOneOf (obj_keys ts) taskId || isOneOf Object_prototype_names taskId)
        eqn:E; [simpl; now rewrite orb_true_r|].
      apply orb_false_iff in E. apply obj_read_undefined in E. congruence.
    + rewrite removeTasks_loop_true.
      destruct (isOneOf (obj_keys ts) taskId || isOneOf Object_prototype_names taskId)
        eqn:E; [simpl; now rewrite orb_true_r|].
      apply orb_false_iff in E. apply obj_read_undefined in E. congruence.
    + apply obj_read_undefined in R. destruct R as [-> ->]. simpl. apply IH.
Qed.

(** The boolean that [removeTasks] returns is true exactly when one of the
    given ids is a stored key or a name that every object inherits, such
    as ["toString"]; in the second case nothing was removed. *)
Theorem removeTasks_returns_flag rev h (tl : TaskList) (taskIds : list string) :
  snd (removeTasks rev h tl taskIds) =
  existsb (fun id => isOneOf (obj_keys (tasks tl)) id ||
                     isOneOf Object_prototype_names id) taskIds.
Proof.
  unfold removeTasks.
  pose proof (removeTasks_loop_flag taskIds (tasks tl) false) as Hf.
  destruct (removeTasks_loop (tasks tl) taskIds false) as [ts c].
  simpl in Hf. now destruct c.
Qed.

Lemma removeTasks_loop_absent taskIds :
  forall ts changed,
    (forall id, In id taskIds ->
       ~ In id (obj_keys ts) /\ ~ In id Object_prototype_names) ->
    removeTasks_loop ts taskIds changed = (ts, changed).
Proof.
  induction taskIds as [|taskId rest IH]; intros ts changed Habs; simpl;
    [reflexivity|].
  destruct (Habs taskId (or_introl eq_refl)) as [Hk Hp].
  assert (R : obj_read ts taskId = Undefined).
  { apply obj_read_undefined. unfold isOneOf. split; apply not_true_is_false;
      intros E; apply existsb_eqb_In in E; contradiction. }
  rewrite R. apply IH. intros id Hid. apply Habs. now right.
Qed.

(** Removing the same ids a second time changes nothing and returns
    false, as long as none of them is an inherited name. *)
Theorem removeTasks_again_is_noop rev h (tl : TaskList) (taskIds : list string) :
  NoDup (obj_keys (tasks tl)) ->
  (forall id, In id taskIds -> ~ In id Object_prototype_names) ->
  removeTasks rev h (fst (removeTasks rev h tl taskIds)) taskIds =
  (fst (removeTasks rev h tl taskIds), false).
Proof.
  intros Hnd Hproto.
  pose proof (proj1 (removeTasks_content rev h tl taskIds Hnd)) as Hkeys.
  destruct (fst (removeTasks rev h tl taskIds)) as [ts1 line1].
  simpl in Hkeys. unfold removeTasks. simpl.
  rewrite removeTasks_loop_absent; [reflexivity|].
  intros id Hid. split; [|now apply Hproto].
  rewrite Hkeys. intros E. apply filter_In in E. destruct E as [_ E].
  apply negb_true_iff in E. unfold isOneOf in E.
  rewrite (proj2 (existsb_eqb_In id taskIds) Hid) in E. discriminate.
Qed.

Lemma removeTasks_again_is_noop_witness :
  removeTasks Unclamped sampleDates
    (fst (removeTasks Unclamped sampleDates listAB ["1234567890"; "nobody"]))
    ["1234567890"; "nobody"] =
  (fst (removeTasks Unclamped sampleDates listAB ["1234567890"; "nobody"]), false).
Proof.
  apply (removeTasks_again_is_noop Unclamped sampleDates listAB
           ["1234567890"; "nobody"]).
  - simpl. repeat constructor; simpl; intuition discriminate.
  - simpl. intuition (subst; discriminate).
Defined.

(** ** [addTasks] *)

Lemma generateUniqueID_from keys rnd id rnd' :
  generateUniqueID keys rnd = Ok (id, rnd') ->
  (exists b, In b rnd /\ id = toString_hex b) /\ incl rnd' rnd.
Proof.
  revert id rnd'. induction rnd as [|b rnd IH]; simpl; intros id rnd'; [discriminate|].
  destruct (existsb (String.eqb (toString_hex b)) keys).
  - intros H. destruct (IH _ _ H) as [(b' & Hb' & ->) Hincl]. split.
    + exists b'. auto.
    + now apply incl_tl.
  - intros [= <- <-]. split.
    + exists b. auto.
    + apply incl_tl, incl_refl.
Qed.

Lemma addTasks_loop_count newTasks :
  forall ts rnd changed ts' rnd' changed',
    addTasks_loop ts rnd newTasks changed = Ok (ts', rnd', changed') ->
    length (obj_keys ts') = (length (obj_keys ts) + length (taskArgs newTasks))%nat /\
    changed' = changed || (0 <? length (taskArgs newTasks))%nat.
Proof.
  induction newTasks as [|[newTask|v] rest IH];
    intros ts rnd changed ts' rnd' changed'; simpl.
  - intros [= <- <- <-]. split; [lia|now rewrite orb_false_r].
  - unfold addTask_prv.
    destruct (generateUniqueID (obj_keys ts) rnd) as [[newId rnd1]| |] eqn:G;
      simpl; try discriminate.
    intros Hrun. destruct (IH _ _ _ _ _ _ Hrun) as [Hlen Hc].
    apply generateUniqueID_fresh in G. apply obj_get_None in G.
    pose proof (obj_set_fresh_perm ts newId (setId (getCopy newTask) newId) G) as Hp.
    apply (Permutation_map fst) in Hp. apply Permutation_length in Hp.
    unfold obj_keys in *. simpl in Hp. split; [lia|].
    rewrite Hc. now rewrite orb_true_r.
  - apply IH.
Qed.

(** [addTasks] stores one task more per Task instance among its arguments,
    whatever else is passed along, and returns true exactly when there was
    such an instance. *)
Theorem addTasks_counts rev h tl rnd newTasks tl' rnd' changed :
  addTasks rev h tl rnd newTasks = Ok (tl', rnd', changed) ->
  taskCount tl' = (taskCount tl + length (taskArgs newTasks))%nat /\
  changed = (0 <? length (taskArgs newTasks))%nat.
Proof.
  unfold addTasks, taskCount.
  destruct (addTasks_loop (tasks tl) rnd newTasks false)
    as [[[ts rnd1] c]| |] eqn:L; simpl; try discriminate.
  destruct (addTasks_loop_count _ _ _ _ _ _ _ L) as [Hlen Hc]. simpl in Hc.
  destruct c; intros [= <- <- <-].
  - unfold organizeTasks. rewrite organizeBy_tasks. auto.
  - auto.
Qed.

Lemma addTasks_counts_witness :
  taskCount listAB = (taskCount emptyTaskList +
                      length (taskArgs [ATask taskA; AOther VNull; ATask taskB]))%nat /\
  true = (0 <? length (taskArgs [ATask taskA; AOther VNull; ATask taskB]))%nat.
Proof.
  apply (addTasks_counts Unclamped sampleDates emptyTaskList sampleRandom
           [ATask taskA; AOther VNull; ATask taskB] listAB
           [(Byte.x01, Byte.x02, Byte.x03, Byte.x04, Byte.x05)] true).
  vm_compute. reflexivity.
Defined.

Lemma addTasks_loop_stores newTasks :
  forall ts rnd changed ts' rnd' changed',
    addTasks_loop ts rnd newTasks changed = Ok (ts', rnd', changed') ->
    forall k,
      match obj_get ts k with
      | Some t => obj_get ts' k = Some t
      | None =>
        obj_get ts' k = None \/
        exists arg b,
          In arg (taskArgs newTasks) /\ In b rnd /\ k = toString_hex b /\
          obj_get ts' k = Some (setId (getCopy arg) k)
      end.
Proof.
  induction newTasks as [|[newTask|v] rest IH];
    intros ts rnd changed ts' rnd' changed'; simpl.
  - intros [= <- <- <-] k. destruct (obj_get ts k); auto.
  - unfold addTask_prv.
    destruct (generateUniqueID (obj_keys ts) rnd) as [[newId rnd1]| |] eqn:G;
      simpl; try discriminate.
    intros Hrun k. specialize (IH _ _ _ _ _ _ Hrun k).
    destruct (generateUniqueID_from _ _ _ _ G) as [(b & Hb & Eb) Hincl].
    apply generateUniqueID_fresh in G. apply obj_get_None in G.
    rewrite obj_get_set in IH.
    destruct (String.eqb newId k) eqn:E.
    + apply String.eqb_eq in E. subst k. rewrite G.
      right. exists newTask, b. auto.
    + destruct (obj_get ts k); [exact IH|].
      destruct IH as [IH|(arg & b' & Harg & Hb' & Ek & Hget)]; [now left|].
      right. exists arg, b'. auto.
  - intros Hrun k. specialize (IH _ _ _ _ _ _ Hrun k).
    destruct (obj_get ts k); [exact IH|].
    destruct IH as [IH|(arg & b' & Harg & Hb' & Ek & Hget)]; [now left|].
    right. exists arg, b'. auto.
Qed.

(** [addTasks] only adds: a task that was stored is still stored under its
    id, unchanged; and whatever else is stored afterwards is the copy of an
    argument, with the id set to the key it is stored under, the hex string
    of one of the random buffers. *)
Theorem addTasks_only_adds rev h tl rnd newTasks tl' rnd' changed :
  addTasks rev h tl rnd newTasks = Ok (tl', rnd', changed) ->
  forall k,
    match obj_get (tasks tl) k with
    | Some t => obj_get (tasks tl') k = Some t
    | None =>
      obj_get (tasks tl') k = None \/
      exists arg b,
        In arg (taskArgs newTasks) /\ In b rnd /\ k = toString_hex b /\
        obj_get (tasks tl') k = Some (setId (getCopy arg) k)
    end.
Proof.
  unfold addTasks.
  destruct (addTasks_loop (tasks tl) rnd newTasks false)
    as [[[ts rnd1] c]| |] eqn:L; simpl; try discriminate.
  pose proof (addTasks_loop_stores _ _ _ _ _ _ _ L) as Hs.
  destruct c; intros [= <- <- <-] k.
  - unfold organizeTasks. rewrite organizeBy_tasks. apply Hs.
  - apply Hs.
Qed.

Lemma addTasks_only_adds_witness :
  addTasks Unclamped sampleDates emptyTaskList sampleRandom
           [ATask taskA; ATask taskB]
  = Ok (listAB, [(Byte.x01, Byte.x02, Byte.x03, Byte.x04, Byte.x05)], true) /\
  match obj_get (tasks emptyTaskList) "aabbccddee" with
  | Some t => obj_get (tasks listAB) "aabbccddee" = Some t
  | None =>
    obj_get (tasks listAB) "aabbccddee" = None \/
    exists arg b,
      In arg (taskArgs [ATask taskA; ATask taskB]) /\ In b sampleRandom /\
      "aabbccddee" = toString_hex b /\
      obj_get (tasks listAB) "aabbccddee"
      = Some (setId (getCopy arg) "aabbccddee")
  end.
Proof.
  split; [vm_compute; reflexivity|].
  apply (addTasks_only_adds Unclamped sampleDates emptyTaskList sampleRandom
           [ATask taskA; ATask taskB] listAB
           [(Byte.x01, Byte.x02, Byte.x03, Byte.x04, Byte.x05)] true).
  vm_compute. reflexivity.
Defined.

Lemma organizeBy_ext key tl1 tl2 :
  tasks tl1 = tasks tl2 -> organizeBy key tl1 = organizeBy key tl2.
Proof.
  intros E. unfold organizeBy. rewrite E.
  destruct (drainDelays_terminates key (obj_values (tasks tl2))) as [x ->].
  reflexivity.
Qed.

(** Adding one task and removing it again by its id gives back the stored
    tasks as they were, in their order, with the timeline that
    [organizeTasks] computes for them. *)
Theorem add_then_remove rev h tl rnd (t : Task) tl1 rnd' changed :
  addTasks rev h tl rnd [ATask t] = Ok (tl1, rnd', changed) ->
  exists newId,
    obj_get (tasks tl) newId = None /\
    obj_get (tasks tl1) newId = Some (setId (getCopy t) newId) /\
    removeTasks rev h tl1 [newId] = (organizeTasks rev h tl, true).
Proof.
  unfold addTasks. simpl. unfold addTask_prv.
  destruct (generateUniqueID (obj_keys (tasks tl)) rnd) as [[newId rnd1]| |] eqn:G;
    simpl; try discriminate.
  intros [= <- <- <-].
  apply generateUniqueID_fresh in G. apply obj_get_None in G.
  exists newId. split; [exact G|]. split.
  - unfold organizeTasks. rewrite organizeBy_tasks. simpl.
    rewrite obj_get_set. now rewrite String.eqb_refl.
  - unfold removeTasks. cbn [removeTasks_loop].
    unfold organizeTasks at 1. rewrite organizeBy_tasks. cbn [tasks].
    unfold obj_read. rewrite obj_get_set, String.eqb_refl.
    f_equal. apply organizeBy_ext. cbn [tasks].
    unfold organizeTasks. rewrite organizeBy_tasks. cbn [tasks].
    now apply obj_delete_set_fresh.
Qed.

Lemma add_then_remove_witness :
  exists newId,
    obj_get (tasks listAB) newId = None /\
    obj_get (tasks (organizeTasks Unclamped sampleDates
                      (mkTaskList (tasks listAB ++ [("0102030405", storedC)]) [])))
            newId = Some (setId (getCopy taskC) newId) /\
    removeTasks Unclamped sampleDates
      (organizeTasks Unclamped sampleDates
         (mkTaskList (tasks listAB ++ [("0102030405", storedC)]) []))
      [newId]
    = (organizeTasks Unclamped sampleDates listAB, true).
Proof.
  apply (add_then_remove Unclamped sampleDates listAB
           [(Byte.x01, Byte.x02, Byte.x03, Byte.x04, Byte.x05)] taskC _ [] true).
  vm_compute. reflexivity.
Defined.

(** ** Queries *)

Lemma getCopy_eq (t : Task) : getCopy t = t.
Proof. now destruct t. Qed.

(** [getTasks_id] throws, a TypeError, exactly when one of the ids is no
    stored key but a name that every object inherits, such as
    ["constructor"]: what is read then has no [getCopy]. *)
Theorem getTasks_id_throws_iff (tl : TaskList) (taskIds : list string) :
  getTasks_id tl taskIds = Throw TypeError <->
  exists id, In id taskIds /\ obj_read (tasks tl) id = Inherited.
Proof.
  induction taskIds as [|taskId rest IH]; simpl.
  - split; [discriminate|]. intros (id & [] & _).
  - destruct (obj_read (tasks tl) taskId) as [t| |] eqn:R.
    + destruct (getTasks_id tl rest) as [l|e|] eqn:Hrest; simpl.
      * split; [discriminate|]. intros (id & [->|Hid] & Hr); [congruence|].
        assert (H : Ok l = Throw TypeError) by (apply IH; eauto). discriminate.
      * split.
        -- intros [= ->]. destruct (proj1 IH eq_refl) as (id & Hid & Hr). eauto.
        -- intros (id & [->|Hid] & Hr); [congruence|].
           assert (H : Throw e = Throw TypeError) by (apply IH; eauto).
           exact H.
      * split; [discriminate|]. intros (id & [->|Hid] & Hr); [congruence|].
        assert (H : @Spin (list Task) = Throw TypeError) by (apply IH; eauto).
        discriminate.
    + split; eauto.
    + rewrite IH. split.
      * intros (id & Hid & Hr). eauto.
      * intros (id & [->|Hid] & Hr); [congruence|eauto].
Qed.

(** When no id is such a name, [getTasks_id] returns the stored tasks of
    the ids that are keys, in the order of the ids, and skips the rest. *)
Theorem getTasks_id_returns (tl : TaskList) (taskIds : list string) :
  (forall id, In id taskIds -> ~ In id Object_prototype_names) ->
  getTasks_id tl taskIds =
  Ok (flat_map (fun id => match obj_get (tasks tl) id with
                          | Some t => [t]
                          | None => []
                          end) taskIds).
Proof.
  induction taskIds as [|taskId rest IH]; intros Hproto;
    cbn [getTasks_id flat_map]; [reflexivity|].
  rewrite IH by (intros id Hid; apply Hproto; now right).
  destruct (obj_get (tasks tl) taskId) as [t|] eqn:G.
  - unfold obj_read. rewrite G. simpl. now rewrite getCopy_eq.
  - assert (R : obj_read (tasks tl) taskId = Undefined).
    { apply obj_read_undefined. unfold isOneOf. split; apply not_true_is_false;
        intros E; apply existsb_eqb_In in E.
      - apply obj_get_None in G. contradiction.
      - exact (Hproto taskId (or_introl eq_refl) E). }
    rewrite R. reflexivity.
Qed.

Lemma getTasks_id_returns_witness :
  getTasks_id listAB ["aabbccddee"; "nobody"; "1234567890"] =
  Ok (flat_map (fun id => match obj_get (tasks listAB) id with
                          | Some t => [t]
                          | None => []
                          end) ["aabbccddee"; "nobody"; "1234567890"]).
Proof.
  apply (getTasks_id_returns listAB ["aabbccddee"; "nobody"; "1234567890"]).
  simpl. intuition (subst; discriminate).
Defined.

Lemma copyTasksOf_is_getTasks_id tl ids :
  (forall id, In id ids -> In id (obj_keys (tasks tl))) ->
  copyTasksOf (tasks tl) ids = getTasks_id tl ids.
Proof.
  induction ids as [|id ids IH]; intros Hin; simpl; [reflexivity|].
  destruct (obj_read_own (tasks tl) id) as [t Ht]; [apply Hin; now left|].
  rewrite Ht, IH; [reflexivity|].
  intros x Hx. apply Hin. now right.
Qed.

(** On a well-kept list [getNextTasks] returns what [getTasks_id] returns
    for the ids of [getNextTaskIds]; on a list without tasks that is the
    empty array, not an error. *)
Theorem getNextTasks_are_next_ids (tl : TaskList) :
  timelineOk tl ->
  getNextTasks tl = getTasks_id tl (getNextTaskIds tl).
Proof.
  intros Hok. unfold getNextTasks, getTasks_timelineIndex.
  pose proof (getNextTaskIds_stored tl) as Hst.
  unfold getNextTaskIds in *. cbn [Z.ltb Z.compare orb Z.to_nat].
  replace (Z.of_nat (timelineLength tl) <? 0) with false
    by (symmetry; apply Z.ltb_ge; lia).
  destruct (nth_error (timeline tl) 0) as [ids|]; [|reflexivity].
  destruct ids as [|id ids]; [reflexivity|]. simpl (0 <? _)%nat in *.
  cbv iota in *. apply copyTasksOf_is_getTasks_id.
  intros x Hx. now apply Hst.
Qed.

Lemma getNextTasks_are_next_ids_witness :
  getNextTasks listAB = getTasks_id listAB (getNextTaskIds listAB).
Proof.
  apply (getNextTasks_are_next_ids listAB).
  split; [split|].
  - simpl. repeat constructor; simpl; intuition discriminate.
  - simpl. repeat constructor.
  - simpl. reflexivity.
Defined.

(** ** The shape of the timeline *)

Lemma stored_id_is_key ts t :
  storeOk ts -> In t (obj_values ts) -> In (getId t) (obj_keys ts).
Proof.
  intros [_ Hid] Ht. unfold obj_values in Ht. apply in_map_iff in Ht.
  destruct Ht as ([k v] & <- & Hkv). rewrite Forall_forall in Hid.
  rewrite (Hid _ Hkv). simpl. apply (in_map fst) in Hkv. exact Hkv.
Qed.

(** Right after [organizeTasks], no stored task has a delay that comes
    before the delay of the tasks of the first group: the tasks that
    [getNextTaskIds] names are the ones that are due first. *)
Theorem next_tasks_are_due_first rev h (tl : TaskList) (t1 t2 : Task) :
  storeOk (tasks tl) ->
  In t1 (obj_values (tasks tl)) -> In t2 (obj_values (tasks tl)) ->
  In (getId t1) (getNextTaskIds (organizeTasks rev h tl)) ->
  key_le (taskDelay rev h t1) (taskDelay rev h t2).
Proof.
  intros Hok Ht1 Ht2 Hnext.
  pose proof (organizeTasks_timelineOk rev h tl Hok) as [_ Hperm].
  assert (H1 : inGroup (organizeTasks rev h tl) 0 (getId t1)).
  { unfold getNextTaskIds in Hnext. unfold inGroup.
    destruct (nth_error (timeline (organizeTasks rev h tl)) 0) as [g|];
      [|contradiction].
    exists g. split; [reflexivity|].
    destruct (0 <? length g)%nat; [exact Hnext|contradiction]. }
  assert (H2 : exists j, inGroup (organizeTasks rev h tl) j (getId t2)).
  { assert (Hin : In (getId t2) (concat (timeline (organizeTasks rev h tl)))).
    { eapply Permutation_in; [symmetry; exact Hperm|].
      unfold organizeTasks. rewrite organizeBy_tasks.
      now apply stored_id_is_key. }
    apply in_concat in Hin. destruct Hin as (g & Hg & Hid).
    apply In_nth_error in Hg. destruct Hg as [j Hj].
    exists j, g. auto. }
  destruct H2 as [j H2].
  destruct (organizeBy_groups (taskDelay rev h) tl Hok 0%nat j t1 t2 Ht1 Ht2 H1 H2)
    as [Heq Hlt].
  destruct j as [|j].
  - left. now apply Heq.
  - right. apply Hlt. lia.
Qed.

Lemma next_tasks_are_due_first_witness :
  key_le (taskDelay Unclamped sampleDates storedA)
         (taskDelay Unclamped sampleDates storedB).
Proof.
  apply (next_tasks_are_due_first Unclamped sampleDates listAB storedA storedB).
  - split; simpl; repeat constructor; simpl; intuition discriminate.
  - simpl. auto.
  - simpl. auto.
  - vm_compute. auto.
Defined.

(** Each group that [organizeTasks] writes lists the ids of all stored
    tasks with one delay, in the order in which the tasks are enumerated;
    that is the order in which the timer callback runs them. *)
Theorem group_lists_ids_in_stored_order rev h (tl : TaskList) (g : list string) :
  In g (timeline (organizeTasks rev h tl)) ->
  exists delay,
    g = idsWithKey (taskDelay rev h) (obj_values (tasks tl)) delay /\ g <> [].
Proof.
  unfold organizeTasks.
  destruct (organizeBy_spec (taskDelay rev h) tl) as (d' & Hp & _ & ->). simpl.
  intros Hg. apply in_map_iff in Hg. destruct Hg as ([k g'] & <- & Hkg).
  simpl. exists k.
  assert (Hin : In (k, g') (collectDelays (taskDelay rev h) (obj_values (tasks tl)))).
  { eapply Permutation_in; [symmetry; exact Hp|exact Hkg]. }
  apply delays_get_of_In in Hin; [|apply collectDelays_NoDup].
  rewrite collectDelays_get in Hin.
  destruct (idsWithKey (taskDelay rev h) (obj_values (tasks tl)) k) eqn:E;
    [discriminate|].
  injection Hin as <-. split; [reflexivity|discriminate].
Qed.

Lemma group_lists_ids_in_stored_order_witness :
  exists delay,
    ["1234567890"; "aabbccddee"] =
    idsWithKey (taskDelay Clamped sampleDates)
               (obj_values (tasks listAB)) delay /\
    ["1234567890"; "aabbccddee"] <> [].
Proof.
  apply (group_lists_ids_in_stored_order Clamped sampleDates listAB).
  vm_compute. auto.
Defined.

Lemma reachable_groupsNonEmpty rev tl : reachable rev tl -> groupsNonEmpty tl.
Proof.
  induction 1.
  - constructor.
  - eapply newTaskList_groupsNonEmpty; eauto.
  - eapply addTasks_groupsNonEmpty; eauto.
  - pose proof (removeTasks_groupsNonEmpty rev h tl taskIds IHreachable) as Hr.
    now rewrite H0 in Hr.
  - apply organizeBy_groupsNonEmpty.
Qed.

Lemma concat_length_ge {A} (gs : list (list A)) :
  Forall (fun g => g <> []) gs -> (length gs <= length (concat gs))%nat.
Proof.
  induction 1 as [|g gs Hg _ IH]; simpl; [lia|].
  rewrite length_app. destruct g; [contradiction|simpl; lia].
Qed.

(** On every list the public methods produce, the groups of the timeline
    hold as many ids as there are tasks, and there are never more groups
    than tasks. *)
Theorem timeline_sizes rev (tl : TaskList) :
  reachable rev tl ->
  length (concat (timeline tl)) = taskCount tl /\
  (timelineLength tl <= taskCount tl)%nat.
Proof.
  intros Hr. destruct (reachable_timelineOk rev tl Hr) as [_ Hperm].
  apply Permutation_length in Hperm. unfold taskCount, timelineLength.
  split; [exact Hperm|]. rewrite <- Hperm.
  apply concat_length_ge. now apply (reachable_groupsNonEmpty rev).
Qed.

Lemma timeline_sizes_witness :
  length (concat (timeline listAB)) = taskCount listAB /\
  (timelineLength listAB <= taskCount listAB)%nat.
Proof.
  apply (timeline_sizes Unclamped listAB).
  apply (reach_add Unclamped sampleDates emptyTaskList sampleRandom
           [ATask taskA; ATask taskB] listAB
           [(Byte.x01, Byte.x02, Byte.x03, Byte.x04, Byte.x05)] true).
  - apply reach_empty.
  - vm_compute. reflexivity.
Defined.

(** ** [getCopy] of a TaskList *)

Lemma getTasksCopy_get (entries : Obj Task) :
  forall (output : Obj Task) k,
    NoDup (obj_keys entries) ->
    obj_get (fold_left (fun out kv => obj_set out (fst kv) (getCopy (snd kv)))
                       entries output) k =
    match obj_get entries k with
    | Some t => Some t
    | None => obj_get output k
    end.
Proof.
  induction entries as [|[k0 t0] entries IH]; intros output k Hnd; simpl;
    [reflexivity|].
  inversion Hnd as [|? ? Hnotin Hnd']; subst.
  rewrite IH by exact Hnd'. rewrite obj_get_set. simpl. rewrite getCopy_eq.
  destruct (String.eqb k0 k) eqn:E; [|reflexivity].
  apply String.eqb_eq in E. subst k0.
  now rewrite (proj2 (obj_get_None entries k) Hnotin).
Qed.

Lemma getTasksCopy_NoDup (entries : Obj Task) :
  forall output : Obj Task,
    NoDup (obj_keys output) ->
    NoDup (obj_keys (fold_left (fun out kv => obj_set out (fst kv) (getCopy (snd kv)))
                               entries output)).
Proof.
  induction entries as [|[k0 t0] entries IH]; intros output Hnd; simpl;
    [exact Hnd|].
  apply IH. now apply obj_set_NoDup.
Qed.

(** The copy that [getCopy] makes of a TaskList has the same timeline, the
    same task under every id and the same number of tasks. *)
Theorem TaskList_getCopy_same_content (tl : TaskList) :
  NoDup (obj_keys (tasks tl)) ->
  timeline (TaskList_getCopy tl) = timeline tl /\
  (forall k, obj_get (tasks (TaskList_getCopy tl)) k = obj_get (tasks tl) k) /\
  taskCount (TaskList_getCopy tl) = taskCount tl.
Proof.
  intros Hnd. unfold TaskList_getCopy, getTimelineCopy, getTasksCopy. simpl.
  assert (Hget : forall k,
    obj_get (fold_left (fun out kv => obj_set out (fst kv) (getCopy (snd kv)))
                       (tasks tl) []) k = obj_get (tasks tl) k).
  { intros k. rewrite getTasksCopy_get by exact Hnd.
    now destruct (obj_get (tasks tl) k). }
  split; [apply map_id|]. split; [exact Hget|].
  unfold taskCount. simpl. apply Permutation_length.
  apply NoDup_Permutation.
  - apply getTasksCopy_NoDup. constructor.
  - exact Hnd.
  - intros k. specialize (Hget k).
    set (copy := fold_left (fun (out : Obj Task) (kv : string * Task) =>
                              obj_set out (fst kv) (getCopy (snd kv)))
                           (tasks tl) []) in *.
    split; intros Hin.
    + destruct (obj_get (tasks tl) k) as [t|] eqn:G.
      * apply obj_get_In in G. apply (in_map fst) in G. exact G.
      * apply obj_get_None in Hget. contradiction.
    + destruct (obj_get copy k) as [t|] eqn:G.
      * apply obj_get_In in G. apply (in_map fst) in G. exact G.
      * symmetry in Hget. apply obj_get_None in Hget. contradiction.
Qed.

Lemma TaskList_getCopy_same_content_witness :
  timeline (TaskList_getCopy listAB) = timeline listAB /\
  (forall k, obj_get (tasks (TaskList_getCopy listAB)) k = obj_get (tasks listAB) k) /\
  taskCount (TaskList_getCopy listAB) = taskCount listAB.
Proof.
  apply (TaskList_getCopy_same_content listAB).
  simpl. repeat constructor; simpl; intuition discriminate.
Defined.

(** ** [findTasksByName] among named tasks *)

Lemma findTasksByName_loop_named elements searchVal caseSensitive :
  forall foundTasks,
    Forall (fun t => getName t <> None) elements ->
    findTasksByName_loop elements searchVal caseSensitive foundTasks =
    Ok (fold_left (keepIfMatch searchVal caseSensitive) elements foundTasks).
Proof.
  induction elements as [|e rest IH]; intros foundTasks Hall; simpl;
    [reflexivity|].
  inversion Hall as [|? ? He Hrest]; subst.
  unfold keepIfMatch at 2, nameMatches.
  destruct (getName e) as [name|]; [|contradiction].
  now apply IH.
Qed.

Lemma keepIfMatch_get searchVal caseSensitive (ts : Obj Task) :
  forall (foundTasks : Obj Task) k,
    storeOk ts ->
    obj_get (fold_left (keepIfMatch searchVal caseSensitive) (obj_values ts)
                       foundTasks) k =
    match obj_get ts k with
    | Some t => if nameMatches searchVal caseSensitive t then Some t
                else obj_get foundTasks k
    | None => obj_get foundTasks k
    end.
Proof.
  induction ts as [|[k0 t0] ts IH]; intros foundTasks k [Hnd Hid]; simpl;
    [reflexivity|].
  pose proof (NoDup_cons_iff k0 (obj_keys ts)) as Hc.
  apply Hc in Hnd. destruct Hnd as [Hnotin Hnd'].
  pose proof (Forall_inv Hid) as Hid0. simpl in Hid0.
  pose proof (Forall_inv_tail Hid) as Hid'.
  rewrite IH by (split; assumption).
  assert (Hacc : obj_get (keepIfMatch searchVal caseSensitive foundTasks t0) k =
                 if String.eqb k0 k
                 then (if nameMatches searchVal caseSensitive t0 then Some t0
                       else obj_get foundTasks k)
                 else obj_get foundTasks k).
  { unfold keepIfMatch.
    destruct (nameMatches searchVal caseSensitive t0).
    - rewrite obj_get_set, Hid0, getCopy_eq. reflexivity.
    - now destruct (String.eqb k0 k). }
  destruct (String.eqb k0 k) eqn:E.
  - apply String.eqb_eq in E. subst k.
    rewrite (proj2 (obj_get_None ts k0) Hnotin). exact Hacc.
  - rewrite Hacc. reflexivity.
Qed.

Lemma findTasksByName_content rev h (tl : TaskList)
    (taskName : string) (caseSensitive : bool) :
  storeOk (tasks tl) -> allNamed tl ->
  exists found,
    findTasksByName rev h tl taskName caseSensitive = Ok found /\
    forall k,
      obj_get (tasks found) k =
      match obj_get (tasks tl) k with
      | Some t =>
        if nameMatches (if caseSensitive then taskName else toLowerCase taskName)
                       caseSensitive t
        then Some t else None
      | None => None
      end.
Proof.
  intros Hok Hnamed. unfold findTasksByName.
  rewrite findTasksByName_loop_named by exact Hnamed. simpl.
  set (sv := if caseSensitive then taskName else toLowerCase taskName).
  pose proof (fun k => keepIfMatch_get sv caseSensitive (tasks tl) [] k Hok) as Hget.
  destruct rev; eexists; (split; [reflexivity|]); intros k.
  - unfold organizeTasks. rewrite organizeBy_tasks. simpl. apply Hget.
  - simpl. apply Hget.
Qed.

(** When every stored task has a name, [findTasksByName] returns, and the
    list it returns holds, under their ids, exactly the stored tasks whose
    name includes the search string; in the case-insensitive mode both
    sides are compared in lower case. *)
Theorem findTasksByName_finds_matches rev h (tl : TaskList)
    (taskName : string) (caseSensitive : bool) :
  storeOk (tasks tl) -> allNamed tl ->
  exists found,
    findTasksByName rev h tl taskName caseSensitive = Ok found /\
    forall k,
      obj_get (tasks found) k =
      match obj_get (tasks tl) k with
      | Some t =>
        if nameMatches (if caseSensitive then taskName else toLowerCase taskName)
                       caseSensitive t
        then Some t else None
      | None => None
      end.
Proof.
  intros Hok Hnamed. unfold findTasksByName.
  rewrite findTasksByName_loop_named by exact Hnamed. simpl.
  set (sv := if caseSensitive then taskName else toLowerCase taskName).
  pose proof (fun k => keepIfMatch_get sv caseSensitive (tasks tl) [] k Hok) as Hget.
  destruct rev; eexists; (split; [reflexivity|]); intros k.
  - unfold organizeTasks. rewrite organizeBy_tasks. simpl. apply Hget.
  - simpl. apply Hget.
Qed.

Lemma findTasksByName_finds_matches_witness :
  exists found,
    findTasksByName Unclamped sampleDates
      (mkTaskList [("1234567890", setName storedA (Some "Backup"))] [["1234567890"]])
      "UP" false = Ok found /\
    forall k,
      obj_get (tasks found) k =
      match obj_get [("1234567890", setName storedA (Some "Backup"))] k with
      | Some t => if nameMatches (toLowerCase "UP") false t then Some t else None
      | None => None
      end.
Proof.
  apply (findTasksByName_finds_matches Unclamped sampleDates
           (mkTaskList [("1234567890", setName storedA (Some "Backup"))]
                       [["1234567890"]]) "UP" false).
  - split; simpl; repeat constructor; simpl; intuition.
  - unfold allNamed. simpl. repeat constructor. discriminate.
Defined.





Lemma includes_empty (s : string) : includes s "" = true.
Proof. now destruct s. Qed.

(** The empty search string matches every name: the search then returns
    all the tasks, in either mode. *)
Theorem empty_search_finds_all rev h (tl : TaskList) (caseSensitive : bool) :
  storeOk (tasks tl) -> allNamed tl ->
  exists found,
    findTasksByName rev h tl "" caseSensitive = Ok found /\
    forall k, obj_get (tasks found) k = obj_get (tasks tl) k.
Proof.
  intros Hok Hnamed.
  destruct (findTasksByName_content rev h tl "" caseSensitive Hok Hnamed)
    as (found & E & G).
  exists found. split; [exact E|]. intros k. rewrite G.
  destruct (obj_get (tasks tl) k) as [t|] eqn:Gk; [|reflexivity].
  assert (Hn : getName t <> None).
  { unfold allNamed in Hnamed. rewrite Forall_forall in Hnamed.
    apply Hnamed. apply obj_get_In in Gk. apply (in_map snd) in Gk. exact Gk. }
  unfold nameMatches. destruct (getName t) as [name|]; [|contradiction].
  replace (if caseSensitive then "" else toLowerCase "") with ""
    by now destruct caseSensitive.
  now rewrite includes_empty.
Qed.

Lemma empty_search_finds_all_witness :
  exists found,
    findTasksByName Clamped sampleDates
      (mkTaskList [("1234567890", setName storedA (Some "Backup"))] [["1234567890"]])
      "" true = Ok found /\
    forall k, obj_get (tasks found) k =
              obj_get [("1234567890", setName storedA (Some "Backup"))] k.
Proof.
  apply (empty_search_finds_all Clamped sampleDates
           (mkTaskList [("1234567890", setName storedA (Some "Backup"))]
                       [["1234567890"]]) true).
  - split; simpl; repeat constructor; simpl; intuition.
  - unfold allNamed. simpl. repeat constructor. discriminate.
Defined.

(** ** The delay of a new task *)

Lemma getTime_new (h : DateHeap) (v : Number) :
  getTime (h ++ [v]) (length h) = v.
Proof.
  unfold getTime. rewrite app_nth2 by lia. now rewrite Nat.sub_diag.
Qed.

Lemma getTime_old (h : DateHeap) (v : Number) (r : DateRef) :
  (r < length h)%nat -> getTime (h ++ [v]) r = getTime h r.
Proof. intros H. unfold getTime. now rewrite app_nth1. Qed.

Lemma TimeClip_in_range (z : Z) :
  Z.abs z <= maxTimeValue -> TimeClip (Int z) = Int z.
Proof. intros H. simpl. now rewrite (proj2 (Z.leb_le _ _) H). Qed.

(** A task made by [createTaskWithExecutionDelay] has, as the delay that
    [organizeTasks] computes for it, the delay it was made with (0 instead
    of a negative delay in the copy that clamps), whatever the clock read:
    tasks made with the same delay at different times share a group. *)
Theorem created_delay_is_kept rev (w w' : Host) (d : Z) (fn : JSValue)
    (args : list JSValue) (t : Task) :
  Z.abs (now w) <= maxTimeValue ->
  Z.abs (now w + d) <= maxTimeValue ->
  Z.abs d < 2 ^ 53 ->
  createTaskWithExecutionDelay w (VNumber (NumInteger d)) fn args = Ok (w', t) ->
  taskDelay rev (dates w') t =
  match rev with Unclamped => Int d | Clamped => Int (Z.max d 0) end.
Proof.
  intros Hnow Hdue Hd. unfold createTaskWithExecutionDelay.
  destruct fn; try discriminate. unfold new_Date.
  rewrite getTime_new. rewrite (TimeClip_in_range _ Hnow). simpl Number_add.
  assert (Hmax : maxTimeValue < 2 ^ 53) by (unfold maxTimeValue; lia).
  rewrite to_double_exact by lia.
  rewrite (TimeClip_in_range _ Hdue).
  intros [= <- <-]. unfold taskDelay, getExectutionTime, getCreationTime.
  cbn [dates t_executionTime t_creationTime].
  rewrite getTime_new.
  rewrite getTime_old by (rewrite length_app; simpl; lia).
  rewrite getTime_new. simpl Number_sub.
  replace (now w + d - now w) with d by lia.
  rewrite to_double_exact by exact Hd.
  now destruct rev.
Qed.

Lemma created_delay_is_kept_witness :
  taskDelay Clamped sampleDates taskC = Int (Z.max 2000 0).
Proof.
  apply (created_delay_is_kept Clamped
           (mkHost [Int 995; Int 997; Int 1000; Int 1000] 1000 [])
           sampleHost 2000 (VFunction 0%nat) [] taskC).
  - vm_compute. discriminate.
  - vm_compute. discriminate.
  - vm_compute. reflexivity.
  - vm_compute. reflexivity.
Defined.

(** ** The tracker and the timers *)

Lemma pendingTimers_app calls c :
  pendingTimers (calls ++ [c]) = pendingStep (pendingTimers calls) c.
Proof. unfold pendingTimers. now rewrite fold_left_app. Qed.

Lemma trackerChanged_false ids_mine ids_them :
  trackerChanged ids_mine ids_them = false <->
  length ids_mine = length ids_them /\ incl ids_mine ids_them.
Proof.
  unfold trackerChanged. destruct (Nat.eqb_spec (length ids_mine) (length ids_them)).
  - split.
    + intros H. split; [assumption|]. intros x Hx.
      apply existsb_eqb_In. destruct (existsb (String.eqb x) ids_them) eqn:E;
        [reflexivity|].
      assert (Ht : existsb (fun id_mine => negb (existsb (String.eqb id_mine) ids_them))
                           ids_mine = true).
      { apply existsb_exists. exists x. now rewrite E. }
      congruence.
    + intros [_ Hincl]. apply not_true_is_false. intros H.
      apply existsb_exists in H. destruct H as (x & Hx & Hneg).
      apply negb_true_iff in Hneg.
      rewrite (proj2 (existsb_eqb_In x ids_them) (Hincl x Hx)) in Hneg.
      discriminate.
  - split; [discriminate|]. intros [? _]. contradiction.
Qed.

Lemma NoDup_getNextTaskIds tl : timelineOk tl -> NoDup (getNextTaskIds tl).
Proof.
  intros [[Hnd _] Hperm].
  assert (Hc : NoDup (concat (timeline tl))).
  { eapply Permutation_NoDup; [symmetry; exact Hperm|exact Hnd]. }
  unfold getNextTaskIds. destruct (timeline tl) as [|g gs]; simpl; [constructor|].
  simpl in Hc. destruct (0 <? length g)%nat; [|constructor].
  now apply NoDup_app_remove_r in Hc.
Qed.

Lemma clearTaskTracker_ok w a w1 a1 :
  timerOk w a ->
  clearTaskTracker w a = (w1, a1) ->
  a1 = mkAgenda (taskList a) None None None /\
  pendingTimers (timerCalls w1) = [] /\
  dates w1 = dates w /\ now w1 = now w /\
  (armedDelaysOk w -> armedDelaysOk w1).
Proof.
  unfold timerOk, clearTaskTracker.
  destruct (nextTasksIds a) as [ids|].
  - intros (_ & _ & _ & timer & -> & Hp). intros [= <- <-].
    unfold clearTimeout. simpl. rewrite pendingTimers_app, Hp. simpl.
    destruct (Nat.eq_dec timer timer); [|contradiction].
    repeat split; auto. unfold armedDelaysOk. simpl. intros H.
    apply Forall_app. split; [exact H|]. repeat constructor.
  - intros (-> & _ & Hp). intros [= <- <-]. repeat split; auto.
Qed.

Lemma getTimeTillExecution_nonneg w t :
  match getTimeTillExecution w t with Int z => 0 <= z | NaN => True end.
Proof.
  unfold getTimeTillExecution.
  destruct (Number_sub _ _); simpl; [lia|exact I].
Qed.

Lemma setTaskTracker_ok w1 a1 w' a' :
  timelineOk (taskList a1) ->
  nextTasksIds a1 = None -> activeTimerId a1 = None ->
  nextExecutionTime a1 = None ->
  pendingTimers (timerCalls w1) = [] ->
  setTaskTracker w1 a1 = Ok (w', a') ->
  timerOk w' a' /\ trackedCurrent a' /\ taskList a' = taskList a1 /\
  dates w' = dates w1 /\ (armedDelaysOk w1 -> armedDelaysOk w').
Proof.
  intros Hok Hids Htimer Htime Hp. unfold setTaskTracker.
  destruct (getNextTaskIds (taskList a1)) as [|first rest] eqn:N.
  - intros [= <- <-]. unfold timerOk, trackedCurrent. rewrite Hids.
    repeat split; auto.
  - destruct (getTasks_id (taskList a1) [first]) as [[|t found]| |];
      simpl; try discriminate.
    intros [= <- <-]. unfold timerOk, trackedCurrent. simpl.
    rewrite pendingTimers_app, Hp. simpl. repeat split; auto.
    + discriminate.
    + rewrite <- N. now apply NoDup_getNextTaskIds.
    + discriminate.
    + eauto.
    + now rewrite N.
    + unfold armedDelaysOk. simpl. intros H. apply Forall_app.
      split; [exact H|]. constructor; [|constructor].
      apply getTimeTillExecution_nonneg.
Qed.

Lemma checkTaskTracker_ok w a w' a' :
  timelineOk (taskList a) -> timerOk w a ->
  checkTaskTracker w a = Ok (w', a') ->
  timerOk w' a' /\ trackedCurrent a' /\ taskList a' = taskList a /\
  dates w' = dates w /\ (armedDelaysOk w -> armedDelaysOk w').
Proof.
  intros Hok Ht. unfold checkTaskTracker.
  destruct (trackerChanged _ _) eqn:C.
  - destruct (clearTaskTracker w a) as [w1 a1] eqn:Hc.
    destruct (clearTaskTracker_ok w a w1 a1 Ht Hc) as (-> & Hp & Hd & _ & Hdel).
    intros Hset.
    destruct (setTaskTracker_ok w1 (mkAgenda (taskList a) None None None) w' a'
                Hok eq_refl eq_refl eq_refl Hp Hset)
      as (H1 & H2 & H3 & H4 & H5).
    repeat split; auto. congruence.
  - intros [= <- <-]. repeat split; auto.
    apply trackerChanged_false in C. destruct C as [Hlen Hincl].
    unfold timerOk in Ht. unfold trackedCurrent.
    destruct (nextTasksIds a) as [ids|].
    + destruct Ht as (_ & Hnd & _).
      apply NoDup_Permutation_bis; [exact Hnd|lia|exact Hincl].
    + simpl in Hlen. destruct (getNextTaskIds (taskList a)); [reflexivity|].
      discriminate.
Qed.

Lemma timerOk_host w w' a a' :
  timerCalls w' = timerCalls w ->
  nextTasksIds a' = nextTasksIds a -> activeTimerId a' = activeTimerId a ->
  nextExecutionTime a' = nextExecutionTime a ->
  timerOk w a -> timerOk w' a'.
Proof.
  unfold timerOk. intros -> -> -> ->. auto.
Qed.

Lemma addTasks_loop_unchanged newTasks :
  forall ts rnd changed ts' rnd',
    addTasks_loop ts rnd newTasks changed = Ok (ts', rnd', false) -> ts' = ts.
Proof.
  induction newTasks as [|[newTask|v] rest IH]; intros ts rnd changed ts' rnd';
    simpl.
  - intros H. now injection H as <- _ _.
  - destruct (addTask_prv ts rnd newTask) as [[ts1 rnd1]| |]; simpl;
      try discriminate.
    intros L. destruct (addTasks_loop_count _ _ _ _ _ _ _ L) as [_ Hc].
    discriminate Hc.
  - apply IH.
Qed.

Lemma addTasks_unchanged rev h tl rnd newTasks tl' rnd' :
  addTasks rev h tl rnd newTasks = Ok (tl', rnd', false) -> tl' = tl.
Proof.
  unfold addTasks.
  destruct (addTasks_loop (tasks tl) rnd newTasks false)
    as [[[ts rnd1] c]| |] eqn:L; simpl; try discriminate.
  destruct c; [discriminate|]. intros [= <- <-].
  apply addTasks_loop_unchanged in L. subst ts. now destruct tl.
Qed.

Lemma removeTasks_unchanged rev h tl taskIds tl' :
  removeTasks rev h tl taskIds = (tl', false) -> tl' = tl.
Proof.
  intros H.
  pose proof (removeTasks_tasks rev h tl taskIds) as Ht.
  pose proof (removeTasks_loop_store taskIds (tasks tl) false) as Hs.
  unfold removeTasks in H.
  destruct (removeTasks_loop (tasks tl) taskIds false) as [ts c] eqn:L.
  destruct c; [discriminate|]. injection H as <-.
  pose proof (removeTasks_loop_flag taskIds (tasks tl) false) as Hf.
  rewrite L in Hf. cbn [snd orb] in Hf. symmetry in Hf.
  assert (Habs : forall id, In id taskIds ->
            ~ In id (obj_keys (tasks tl)) /\ ~ In id Object_prototype_names).
  { intros id Hid.
    assert (E : isOneOf (obj_keys (tasks tl)) id ||
                isOneOf Object_prototype_names id = false).
    { destruct (isOneOf (obj_keys (tasks tl)) id ||
                isOneOf Object_prototype_names id) eqn:E; [|reflexivity].
      assert (Ht' : existsb (fun id => isOneOf (obj_keys (tasks tl)) id ||
                                       isOneOf Object_prototype_names id) taskIds
                    = true) by (apply existsb_exists; eauto).
      congruence. }
    apply orb_false_iff in E. destruct E as [E1 E2]. unfold isOneOf in *.
    split; intros Hin; apply existsb_eqb_In in Hin; congruence. }
  rewrite (removeTasks_loop_absent taskIds (tasks tl) false Habs) in L.
  injection L as <-. now destruct tl.
Qed.

Lemma armedDelaysOk_host w w' :
  timerCalls w' = timerCalls w -> armedDelaysOk w -> armedDelaysOk w'.
Proof. unfold armedDelaysOk. now intros ->. Qed.

Lemma Agenda_addTasks_ok rev w a rnd newTasks w' a' rnd' count :
  agendaOk w a ->
  Agenda_addTasks rev w a rnd newTasks = Ok (w', a', rnd', count) ->
  agendaOk w' a'.
Proof.
  intros (Hline & Hgroups & Htimer & Htracked & Hdelays). unfold Agenda_addTasks.
  destruct (addTasks rev (dates w) (taskList a) rnd newTasks)
    as [[[tl rnd1] c]| |] eqn:A; simpl; try discriminate.
  destruct c.
  - destruct (checkTaskTracker w (withTaskList a tl)) as [[w2 a2]| |] eqn:C;
      simpl; try discriminate.
    intros [= <- <- <- <-].
    pose proof (addTasks_timelineOk _ _ _ _ _ _ _ _ Hline A) as Hline'.
    pose proof (addTasks_groupsNonEmpty _ _ _ _ _ _ _ _ Hgroups A) as Hgroups'.
    destruct (checkTaskTracker_ok w (withTaskList a tl) w2 a2 Hline' Htimer C)
      as (H1 & H2 & H3 & _ & H5).
    simpl in H3. unfold agendaOk. rewrite H3.
    refine (conj _ (conj _ (conj _ (conj _ _)))); auto.
  - intros [= <- <- <- <-]. apply addTasks_unchanged in A. subst tl.
    refine (conj _ (conj _ (conj _ (conj _ _)))); auto.
Qed.

Lemma Agenda_removeTask_ok rev w a taskIds w' a' count :
  agendaOk w a ->
  Agenda_removeTask rev w a taskIds = Ok (w', a', count) ->
  agendaOk w' a'.
Proof.
  intros (Hline & Hgroups & Htimer & Htracked & Hdelays). unfold Agenda_removeTask.
  destruct (removeTasks rev (dates w) (taskList a) [Array_toString taskIds])
    as [tl c] eqn:R.
  destruct c.
  - destruct (checkTaskTracker w (withTaskList a tl)) as [[w2 a2]| |] eqn:C;
      simpl; try discriminate.
    intros [= <- <- <-].
    pose proof (removeTasks_timelineOk _ _ _ _ _ _ Hline R) as Hline'.
    pose proof (removeTasks_groupsNonEmpty rev (dates w) (taskList a)
                  [Array_toString taskIds] Hgroups) as Hgroups'.
    rewrite R in Hgroups'. simpl in Hgroups'.
    destruct (checkTaskTracker_ok w (withTaskList a tl) w2 a2 Hline' Htimer C)
      as (H1 & H2 & H3 & _ & H5).
    simpl in H3. unfold agendaOk. rewrite H3.
    refine (conj _ (conj _ (conj _ (conj _ _)))); auto.
  - intros [= <- <- <-]. apply removeTasks_unchanged in R. subst tl.
    refine (conj _ (conj _ (conj _ (conj _ _)))); auto.
Qed.

Lemma execute_host run w t w1 :
  execute run w t = Ok w1 -> timerCalls w1 = timerCalls w /\ now w1 = now w.
Proof.
  unfold execute.
  destruct (run (t_payloadFunction t) (getPayloadArguments t) (dates w));
    simpl; try discriminate.
  intros [= <-]. auto.
Qed.

Lemma executeAll_host run nextTasks :
  forall w ids w1 ids',
    executeAll run w nextTasks ids = Ok (w1, ids') ->
    timerCalls w1 = timerCalls w /\ ids' = ids ++ map getId nextTasks.
Proof.
  induction nextTasks as [|t rest IH]; intros w ids w1 ids'; simpl.
  - intros [= <- <-]. now rewrite app_nil_r.
  - destruct (execute run w t) as [w2| |] eqn:E; simpl; try discriminate.
    intros H. destruct (IH _ _ _ _ H) as [Hc ->].
    destruct (execute_host _ _ _ _ E) as [Hc2 _].
    split; [congruence|]. now rewrite <- app_assoc.
Qed.

Lemma executeTrackedTasks_ok rev run w a w' a' :
  agendaOk w a ->
  executeTrackedTasks rev run w a = Ok (w', a') ->
  agendaOk w' a'.
Proof.
  intros (Hline & Hgroups & Htimer & Htracked & Hdelays).
  unfold executeTrackedTasks.
  destruct (getTrackedTasks a) as [l| |]; simpl; try discriminate.
  destruct (executeAll run w l []) as [[w1 ids]| |] eqn:E; simpl; try discriminate.
  destruct (executeAll_host _ _ _ _ _ _ E) as [Hcalls _].
  destruct (removeTasks rev (dates w1) (taskList a) ids) as [tl c] eqn:R.
  pose proof (removeTasks_timelineOk _ _ _ _ _ _ Hline R) as Hline'.
  pose proof (removeTasks_groupsNonEmpty rev (dates w1) (taskList a) ids Hgroups)
    as Hgroups'.
  rewrite R in Hgroups'. simpl in Hgroups'.
  destruct (clearTaskTracker w1 (withTaskList a tl)) as [w2 a2] eqn:Hc.
  assert (Htimer1 : timerOk w1 (withTaskList a tl))
    by (apply (timerOk_host w w1 a); auto).
  destruct (clearTaskTracker_ok _ _ _ _ Htimer1 Hc) as (-> & Hp & _ & _ & Hdel).
  intros Hset.
  destruct (setTaskTracker_ok w2 (mkAgenda (taskList (withTaskList a tl)) None None None)
              w' a' Hline' eq_refl eq_refl eq_refl Hp Hset)
    as (H1 & H2 & H3 & _ & H5).
  simpl in H3. unfold agendaOk. rewrite H3.
  refine (conj _ (conj _ (conj _ (conj _ _)))); auto.
  apply H5, Hdel. now apply (armedDelaysOk_host w).
Qed.

Lemma executeTaskNow_ok rev run w a taskId removeAfterExecution w' a' count :
  agendaOk w a ->
  executeTaskNow rev run w a taskId removeAfterExecution = Ok (w', a', count) ->
  agendaOk w' a'.
Proof.
  intros Hok. unfold executeTaskNow.
  destruct (getTasks_id (taskList a) [taskId]) as [[|t found]| |];
    simpl; try discriminate.
  - now intros [= <- <- <-].
  - destruct (execute run w t) as [w1| |] eqn:E; simpl; try discriminate.
    destruct (execute_host _ _ _ _ E) as [Hcalls _].
    assert (Hok1 : agendaOk w1 a).
    { destruct Hok as (H1 & H2 & H3 & H4 & H5).
      refine (conj _ (conj _ (conj _ (conj _ _)))); auto.
      - apply (timerOk_host w w1 a); auto.
      - now apply (armedDelaysOk_host w). }
    destruct removeAfterExecution.
    + intros H. eapply Agenda_removeTask_ok; eauto.
    + now intros [= <- <- <-].
Qed.

Lemma agendaOk_new h n : agendaOk (mkHost h n []) newAgenda.
Proof.
  refine (conj _ (conj _ (conj _ (conj _ _)))).
  - apply timelineOk_empty.
  - constructor.
  - unfold timerOk. simpl. auto.
  - reflexivity.
  - constructor.
Qed.

(** Between two calls an Agenda is always in order. *)
Lemma agendaReachable_ok rev run w a : agendaReachable rev run w a -> agendaOk w a.
Proof.
  induction 1.
  - apply agendaOk_new.
  - destruct IHagendaReachable as (H1 & H2 & H3 & H4 & H5).
    refine (conj _ (conj _ (conj _ (conj _ _)))); auto.
  - eapply Agenda_addTasks_ok; eauto.
  - eapply Agenda_removeTask_ok; eauto.
  - eapply executeTrackedTasks_ok; eauto.
  - eapply executeTaskNow_ok; eauto.
Qed.

(** ** What holds of every Agenda *)

(** At most one timer of the Agenda is pending at any time, and it is the
    one in [#activeTimerId]: every timer armed before was cancelled. *)
Theorem one_pending_timer rev run (w : Host) (a : Agenda) :
  agendaReachable rev run w a ->
  pendingTimers (timerCalls w) =
  match activeTimerId a with Some timer => [timer] | None => [] end.
Proof.
  intros Hr. destruct (agendaReachable_ok rev run w a Hr) as (_ & _ & Ht & _ & _).
  unfold timerOk in Ht. destruct (nextTasksIds a).
  - destruct Ht as (_ & _ & _ & timer & -> & Hp). exact Hp.
  - destruct Ht as (-> & _ & Hp). exact Hp.
Qed.

Lemma one_pending_timer_witness :
  pendingTimers (timerCalls hostAB) =
  match activeTimerId agendaAB with Some timer => [timer] | None => [] end.
Proof.
  apply (one_pending_timer Unclamped samplePayloads hostAB agendaAB).
  apply (ar_add Unclamped samplePayloads sampleHost newAgenda sampleRandom
           [ATask taskA; ATask taskB] hostAB agendaAB
           [(Byte.x01, Byte.x02, Byte.x03, Byte.x04, Byte.x05)] 2%nat).
  - apply (ar_new Unclamped samplePayloads sampleDates 1000).
  - vm_compute. reflexivity.
Defined.

Lemma no_tasks_no_next_ids tl :
  timelineOk tl -> groupsNonEmpty tl ->
  (getNextTaskIds tl = [] <-> taskCount tl = 0%nat).
Proof.
  intros [_ Hperm] Hne. unfold taskCount.
  pose proof (getNextTaskIds_nonempty tl Hne) as Hiff.
  apply Permutation_length in Hperm. split.
  - intros Hnil. destruct (timeline tl) as [|g gs] eqn:T.
    + simpl in Hperm. lia.
    + exfalso. apply (proj2 Hiff); [discriminate|exact Hnil].
  - intros Hz. destruct (getNextTaskIds tl) as [|x l] eqn:N; [reflexivity|].
    exfalso. assert (Hline : timeline tl <> []) by (apply Hiff; discriminate).
    unfold groupsNonEmpty in Hne.
    destruct (timeline tl) as [|g gs]; [contradiction|].
    inversion Hne as [|? ? Hg _]; subst. simpl in Hperm.
    rewrite length_app in Hperm. destruct g; [contradiction|simpl in Hperm; lia].
Qed.

(** Between two calls the tracked ids are the ids of the first group of
    the timeline, and a timer is armed exactly when a task is stored. *)
Theorem tracker_follows_first_group rev run (w : Host) (a : Agenda) :
  agendaReachable rev run w a ->
  Permutation (trackedIds a) (getNextTaskIds (taskList a)) /\
  (activeTimerId a = None <-> getTaskCount a = 0%nat).
Proof.
  intros Hr.
  destruct (agendaReachable_ok rev run w a Hr) as (Hline & Hne & Ht & Hcur & _).
  pose proof (no_tasks_no_next_ids _ Hline Hne) as Hiff.
  unfold timerOk in Ht. unfold trackedCurrent in Hcur. unfold trackedIds, getTaskCount.
  destruct (nextTasksIds a) as [ids|].
  - split; [exact Hcur|].
    destruct Ht as (Hids & _ & _ & timer & -> & _). split; [discriminate|].
    intros Hz. apply Hiff in Hz. rewrite Hz in Hcur.
    apply Permutation_sym, Permutation_nil in Hcur. contradiction.
  - destruct Ht as (-> & _ & _). rewrite Hcur. split; [reflexivity|].
    split; [|reflexivity]. intros _. now apply Hiff.
Qed.

Lemma tracker_follows_first_group_witness :
  Permutation (trackedIds agendaAB) (getNextTaskIds (taskList agendaAB)) /\
  (activeTimerId agendaAB = None <-> getTaskCount agendaAB = 0%nat).
Proof.
  apply (tracker_follows_first_group Unclamped samplePayloads hostAB agendaAB).
  apply (ar_add Unclamped samplePayloads sampleHost newAgenda sampleRandom
           [ATask taskA; ATask taskB] hostAB agendaAB
           [(Byte.x01, Byte.x02, Byte.x03, Byte.x04, Byte.x05)] 2%nat).
  - apply (ar_new Unclamped samplePayloads sampleDates 1000).
  - vm_compute. reflexivity.
Defined.

(** The Agenda never arms a timer with a negative delay: a task that is
    overdue is armed with delay 0. *)
Theorem never_a_negative_delay rev run (w : Host) (a : Agenda) :
  agendaReachable rev run w a ->
  forall timer z, In (SetTimeout timer (Int z)) (timerCalls w) -> 0 <= z.
Proof.
  intros Hr timer z Hin.
  destruct (agendaReachable_ok rev run w a Hr) as (_ & _ & _ & _ & Hd).
  unfold armedDelaysOk in Hd. rewrite Forall_forall in Hd.
  exact (Hd _ Hin).
Qed.

Lemma never_a_negative_delay_witness :
  In (SetTimeout 0 (Int 0)) (timerCalls hostAB) /\ 0 <= 0.
Proof.
  split; [left; reflexivity|].
  apply (never_a_negative_delay Unclamped samplePayloads hostAB agendaAB)
    with (timer := 0%nat); [|left; reflexivity].
  apply (ar_add Unclamped samplePayloads sampleHost newAgenda sampleRandom
           [ATask taskA; ATask taskB] hostAB agendaAB
           [(Byte.x01, Byte.x02, Byte.x03, Byte.x04, Byte.x05)] 2%nat).
  - apply (ar_new Unclamped samplePayloads sampleDates 1000).
  - vm_compute. reflexivity.
Defined.

(** ** Single calls of the Agenda *)

Lemma obj_delete_count {V} (o : Obj V) k :
  obj_get o k <> None ->
  S (length (obj_keys (obj_delete o k))) = length (obj_keys o).
Proof.
  induction o as [|[k0 v0] o IH]; simpl; [congruence|].
  destruct (String.eqb k0 k); [reflexivity|].
  intros H. simpl. now rewrite IH.
Qed.

Lemma Agenda_removeTask_taskList rev w a taskIds w' a' count :
  Agenda_removeTask rev w a taskIds = Ok (w', a', count) ->
  tasks (taskList a') = obj_delete (tasks (taskList a)) (Array_toString taskIds) /\
  count = getTaskCount a'.
Proof.
  unfold Agenda_removeTask.
  pose proof (removeTasks_tasks rev (dates w) (taskList a) [Array_toString taskIds])
    as Ht.
  destruct (removeTasks rev (dates w) (taskList a) [Array_toString taskIds])
    as [tl c]. simpl in Ht.
  destruct c.
  - destruct (checkTaskTracker w (withTaskList a tl)) as [[w2 a2]| |] eqn:C;
      simpl; try discriminate.
    intros [= <- <- <-].
    rewrite (checkTaskTracker_taskList _ _ _ _ C). simpl. auto.
  - intros [= <- <- <-]. simpl. auto.
Qed.


(** [removeTask] with one id removes the task stored under it and no
    other, and returns the number of tasks that are left: one less than
    before when the id was stored. *)
Theorem removeTask_with_one_id rev (w : Host) (a : Agenda) (taskId : string)
    (w' : Host) (a' : Agenda) (count : nat) :
  NoDup (obj_keys (tasks (taskList a))) ->
  Agenda_removeTask rev w a [taskId] = Ok (w', a', count) ->
  (forall k, obj_get (tasks (taskList a')) k =
             if String.eqb taskId k then None
             else obj_get (tasks (taskList a)) k) /\
  count = getTaskCount a' /\
  (obj_get (tasks (taskList a)) taskId <> None ->
   S count = getTaskCount a).
Proof.
  intros Hnd Hrun.
  destruct (Agenda_removeTask_taskList _ _ _ _ _ _ _ Hrun) as [Ht Hc].
  change (Array_toString [taskId]) with taskId in Ht.
  split; [|split; [exact Hc|]].
  - intros k. rewrite Ht. now apply obj_get_delete.
  - intros Hst. rewrite Hc. unfold getTaskCount, taskCount. rewrite Ht.
    now apply obj_delete_count.
Qed.

Lemma removeTask_with_one_id_witness :
  exists w' a',
    Agenda_removeTask Unclamped hostAB agendaAB ["aabbccddee"] = Ok (w', a', 1%nat) /\
    (forall k, obj_get (tasks (taskList a')) k =
               if String.eqb "aabbccddee" k then None
               else obj_get (tasks (taskList agendaAB)) k).
Proof.
  destruct (Agenda_removeTask Unclamped hostAB agendaAB ["aabbccddee"])
    as [[[w' a'] n]| |] eqn:R; try (vm_compute in R; discriminate R).
  assert (n = 1%nat) by (vm_compute in R; now injection R).
  subst n. exists w', a'. split; [reflexivity|].
  apply (removeTask_with_one_id Unclamped hostAB agendaAB "aabbccddee" w' a' 1%nat).
  - simpl. repeat constructor; simpl; intuition discriminate.
  - exact R.
Defined.







Lemma checkTaskTracker_same_group w a :
  Permutation (trackedIds a) (getNextTaskIds (taskList a)) ->
  checkTaskTracker w a = Ok (w, a).
Proof.
  intros Hp. unfold checkTaskTracker. fold (trackedIds a).
  rewrite (proj2 (trackerChanged_false _ _)); [reflexivity|].
  split; [now apply Permutation_length|].
  intros x Hx. eapply Permutation_in; eauto.
Qed.

(** Adding tasks that leave the first group of the timeline as it was
    tracked costs no timer call: the pending timer keeps running, and the
    tracked ids, timer and time stay as they are. *)
Theorem addTasks_keeps_the_timer rev (w : Host) (a : Agenda) rnd newTasks
    (w' : Host) (a' : Agenda) rnd' (count : nat) :
  Agenda_addTasks rev w a rnd newTasks = Ok (w', a', rnd', count) ->
  Permutation (trackedIds a) (getNextTaskIds (taskList a')) ->
  w' = w /\ nextTasksIds a' = nextTasksIds a /\
  activeTimerId a' = activeTimerId a /\
  nextExecutionTime a' = nextExecutionTime a.
Proof.
  unfold Agenda_addTasks.
  destruct (addTasks rev (dates w) (taskList a) rnd newTasks)
    as [[[tl rnd1] c]| |]; simpl; try discriminate.
  destruct c.
  - destruct (checkTaskTracker w (withTaskList a tl)) as [[w2 a2]| |] eqn:C;
      simpl; try discriminate.
    intros [= <- <- <- <-] Hp.
    rewrite (checkTaskTracker_taskList _ _ _ _ C) in Hp.
    rewrite (checkTaskTracker_same_group w (withTaskList a tl) Hp) in C.
    injection C as <- <-. auto.
  - intros [= <- <- <- <-] _. auto.
Qed.

Lemma addTasks_keeps_the_timer_witness :
  exists w' a' rnd' count,
    Agenda_addTasks Unclamped hostAB agendaAB
      [(Byte.x01, Byte.x02, Byte.x03, Byte.x04, Byte.x05)] [ATask taskC]
    = Ok (w', a', rnd', count) /\
    w' = hostAB /\ activeTimerId a' = activeTimerId agendaAB.
Proof.
  destruct (Agenda_addTasks Unclamped hostAB agendaAB
              [(Byte.x01, Byte.x02, Byte.x03, Byte.x04, Byte.x05)] [ATask taskC])
    as [[[[w' a'] rnd'] n]| |] eqn:R; try (vm_compute in R; discriminate R).
  exists w', a', rnd', n. split; [reflexivity|].
  destruct (addTasks_keeps_the_timer Unclamped hostAB agendaAB _ _ w' a' rnd' n R)
    as (H1 & _ & H3 & _).
  - vm_compute in R. injection R as <- <- <- <-. vm_compute. apply Permutation_refl.
  - auto.
Defined.

(** When the first group of the timeline is not the tracked one, the check
    cancels the pending timer, if there is one, and arms one new timer for
    the first group, or none if no group is left. *)
Theorem tracker_rearms_once (w : Host) (a : Agenda) (w' : Host) (a' : Agenda) :
  timerOk w a ->
  ~ Permutation (trackedIds a) (getNextTaskIds (taskList a)) ->
  checkTaskTracker w a = Ok (w', a') ->
  exists armed,
    timerCalls w' =
    timerCalls w ++
    match activeTimerId a with Some timer => [ClearTimeout timer] | None => [] end
    ++ armed /\
    match getNextTaskIds (taskList a) with
    | [] => armed = [] /\ nextTasksIds a' = None /\ activeTimerId a' = None
    | ids =>
      exists timer delay,
        armed = [SetTimeout timer delay] /\ activeTimerId a' = Some timer /\
        nextTasksIds a' = Some ids
    end.
Proof.
  intros Ht Hnp. unfold checkTaskTracker. fold (trackedIds a).
  destruct (trackerChanged (trackedIds a) (getNextTaskIds (taskList a))) eqn:C.
  - unfold clearTaskTracker, setTaskTracker.
    destruct (activeTimerId a) as [timer|]; cbn [taskList];
      destruct (getNextTaskIds (taskList a)) as [|first rest].
    + intros [= <- <-]. exists []. simpl. auto.
    + destruct (getTasks_id (taskList a) [first]) as [[|t found]| |];
        simpl; try discriminate.
      intros [= <- <-]. eexists. simpl. split; [now rewrite <- app_assoc|].
      eauto.
    + intros [= <- <-]. exists []. simpl. rewrite app_nil_r. auto.
    + destruct (getTasks_id (taskList a) [first]) as [[|t found]| |];
        simpl; try discriminate.
      intros [= <- <-]. eexists. simpl. split; [reflexivity|]. eauto.
  - exfalso. apply Hnp. apply trackerChanged_false in C. destruct C as [Hlen Hincl].
    apply NoDup_Permutation_bis; [|lia|exact Hincl].
    unfold timerOk in Ht. unfold trackedIds.
    destruct (nextTasksIds a); [apply Ht|constructor].
Qed.

Lemma tracker_rearms_once_witness :
  let a := withTaskList agendaAB
             (fst (removeTasks Unclamped sampleDates listAB ["1234567890"])) in
  exists w' a',
    checkTaskTracker hostAB a = Ok (w', a') /\
    exists armed,
      timerCalls w' = timerCalls hostAB ++ [ClearTimeout 0] ++ armed /\
      exists timer delay,
        armed = [SetTimeout timer delay] /\ activeTimerId a' = Some timer /\
        nextTasksIds a' = Some ["aabbccddee"].
Proof.
  intros a.
  destruct (checkTaskTracker hostAB a) as [[w' a']| |] eqn:R;
    try (vm_compute in R; discriminate R).
  exists w', a'. split; [reflexivity|].
  apply (tracker_rearms_once hostAB a w' a').
  - unfold timerOk. simpl. repeat split; try discriminate.
    + repeat constructor; simpl; intuition.
    + exists 0%nat. auto.
  - vm_compute. intros Hp. apply Permutation_length_1 in Hp. discriminate Hp.
  - exact R.
Defined.

Lemma addTasks_returns_witness :
  exists tl' rnd' changed,
    addTasks Unclamped sampleDates emptyTaskList sampleRandom
             [ATask taskA; AOther VNull; ATask taskB] = Ok (tl', rnd', changed).
Proof.
  apply (addTasks_returns Unclamped sampleDates emptyTaskList sampleRandom
           [ATask taskA; AOther VNull; ATask taskB]).
  - vm_compute. repeat constructor; simpl; intuition discriminate.
  - simpl. intros b Hb Hin. exact Hin.
  - simpl. lia.
Defined.

(** [Agenda.addTasks] returns the number of tasks stored afterwards: the
    number stored before plus the number of Task instances among the
    arguments. *)
Theorem Agenda_addTasks_returns_count rev (w : Host) (a : Agenda) rnd newTasks
    (w' : Host) (a' : Agenda) rnd' (count : nat) :
  Agenda_addTasks rev w a rnd newTasks = Ok (w', a', rnd', count) ->
  count = getTaskCount a' /\
  count = (getTaskCount a + length (taskArgs newTasks))%nat.
Proof.
  unfold Agenda_addTasks.
  destruct (addTasks rev (dates w) (taskList a) rnd newTasks)
    as [[[tl rnd1] c]| |] eqn:A; simpl; try discriminate.
  assert (Hcount : taskCount tl =
                   (taskCount (taskList a) + length (taskArgs newTasks))%nat).
  { revert A. unfold addTasks, taskCount.
    destruct (addTasks_loop (tasks (taskList a)) rnd newTasks false)
      as [[[ts rnd2] c2]| |] eqn:L; simpl; try discriminate.
    destruct (addTasks_loop_count _ _ _ _ _ _ _ L) as [Hlen _].
    destruct c2; intros [= <- <- <-].
    - unfold organizeTasks. now rewrite organizeBy_tasks.
    - exact Hlen. }
  destruct c.
  - destruct (checkTaskTracker w (withTaskList a tl)) as [[w2 a2]| |] eqn:C;
      simpl; try discriminate.
    intros [= <- <- <- <-]. unfold getTaskCount.
    rewrite (checkTaskTracker_taskList _ _ _ _ C). simpl. auto.
  - intros [= <- <- <- <-]. unfold getTaskCount. simpl. auto.
Qed.

Lemma Agenda_addTasks_returns_count_witness :
  2%nat = getTaskCount agendaAB /\
  2%nat = (getTaskCount newAgenda + length (taskArgs [ATask taskA; ATask taskB]))%nat.
Proof.
  apply (Agenda_addTasks_returns_count Unclamped sampleHost newAgenda sampleRandom
           [ATask taskA; ATask taskB] hostAB agendaAB
           [(Byte.x01, Byte.x02, Byte.x03, Byte.x04, Byte.x05)] 2%nat).
  vm_compute. reflexivity.
Defined.
